(** * tmx: decoding of Tiled layer data

    A shallow embedding of the layer-decoding core of package [tmx]
    (main.go and the payload decoders [decodeB64LayerData] and
    [decodeCSVLayerData]): the packed global identifier, the payload
    decoders, the tile-set scan, the two memoised accessors of a layer and
    the terrain descriptor of a tile.

    Conventions.
    - [uint32] values are integers of [Z]; every arithmetic result is wrapped
      with [wrap32] where Go wraps.
    - A Go [string] is a [string] of 8-bit characters, a [[]byte] is a
      [list byte]; [string(b)] is [string_of_list_byte].
    - A Go function returning [(v, err)] returns a pair whose second
      component is [None] for a [nil] error: both components are kept,
      because the source returns non-zero values next to an error.
    - A method with a pointer receiver returns the receiver after the call
      next to its results.
    - A slice that is only ever built by [append] on a [nil] slice is a
      [list]; it is [nil] exactly when it is [[]]. *)

From Stdlib Require Import ZArith List String Ascii Strings.Byte Bool Lia.
From Stdlib Require Import DecimalString Sorting.Permutation Sorting.Sorted.
Import ListNotations.
Local Open Scope string_scope.
Local Open Scope Z_scope.

(** ** Machine integers *)

Definition wrap32 (z : Z) : Z := z mod 2 ^ 32.

Definition is_uint32 (z : Z) : Prop := 0 <= z < 2 ^ 32.

(** [%v] of an integer. *)
Definition fmtInt (z : Z) : string := NilZero.string_of_int (Z.to_int z).

(** ** Errors *)

(** The two error causes of package strconv. *)
Inductive strconvErr : Type :=
| ErrSyntax
| ErrRange.

(** Error values.  The first three are package-level variables of main.go
    (lines 30-32); [Errorf] is a value built by [fmt.Errorf], [NumError] a
    [*strconv.NumError], [Foreign] an error of a decoder of the standard
    library (base64, zlib, gzip). *)
Inductive error : Type :=
| ErrUnsupportedEncoding
| ErrUnsupportedCompression
| ErrNoSuitableTileSet
| Errorf (msg : string)
| NumError (Func Num : string) (Err : strconvErr)
| Foreign (msg : string).

(** ** Package strings *)

Definition code (c : ascii) : Z := Z.of_N (N_of_ascii c).

(** [strings.Split(s, sep)] for a separator of one byte, which is what both
    call sites pass: the fields between the separators, [[""]] for [""]. *)
Fixpoint Split (s : string) (sep : ascii) : list string :=
  match s with
  | EmptyString => [EmptyString]
  | String c s' =>
      if Ascii.eqb c sep then EmptyString :: Split s' sep
      else match Split s' sep with
           | f :: fs => String c f :: fs
           | [] => [String c EmptyString]
           end
  end.

(** The table [asciiSpace] of package strings. *)
Definition asciiSpace (c : Z) : bool :=
  (c =? 9) || (c =? 10) || (c =? 11) || (c =? 12) || (c =? 13) || (c =? 32).

(** [unicode.IsSpace] holds of the six ASCII spaces and of U+0085, U+00A0,
    U+1680, U+2000..U+200A, U+2028, U+2029, U+202F, U+205F and U+3000.  A
    rune is recognised by its UTF-8 encoding, which is unique: [isSpace2] and
    [isSpace3] say that two or three bytes encode a white-space rune. *)
Definition isSpace2 (c c1 : Z) : bool :=
  (c =? 0xC2) && ((c1 =? 0x85) || (c1 =? 0xA0)).

Definition isSpace3 (c c1 c2 : Z) : bool :=
  ((c =? 0xE1) && (c1 =? 0x9A) && (c2 =? 0x80))
  || ((c =? 0xE2) && (c1 =? 0x80)
      && (((0x80 <=? c2) && (c2 <=? 0x8A))
          || (c2 =? 0xA8) || (c2 =? 0xA9) || (c2 =? 0xAF)))
  || ((c =? 0xE2) && (c1 =? 0x81) && (c2 =? 0x9F))
  || ((c =? 0xE3) && (c1 =? 0x80) && (c2 =? 0x80)).

(** Width in bytes of the white-space rune that starts [s], 0 when [s] does
    not start with one. *)
Definition spaceWidth (s : list Z) : nat :=
  match s with
  | c :: c1 :: c2 :: _ =>
      if asciiSpace c then 1%nat
      else if isSpace2 c c1 then 2%nat
      else if isSpace3 c c1 c2 then 3%nat
      else 0%nat
  | [c; c1] =>
      if asciiSpace c then 1%nat
      else if isSpace2 c c1 then 2%nat
      else 0%nat
  | [c] => if asciiSpace c then 1%nat else 0%nat
  | [] => 0%nat
  end.

(** The same read backwards: [s] is the reversed string, and the width is
    that of the white-space rune the string ends with. *)
Definition spaceWidthRev (s : list Z) : nat :=
  match s with
  | c :: c1 :: c2 :: _ =>
      if asciiSpace c then 1%nat
      else if isSpace2 c1 c then 2%nat
      else if isSpace3 c2 c1 c then 3%nat
      else 0%nat
  | [c; c1] =>
      if asciiSpace c then 1%nat
      else if isSpace2 c1 c then 2%nat
      else 0%nat
  | [c] => if asciiSpace c then 1%nat else 0%nat
  | [] => 0%nat
  end.

(** Drop white-space runes from the front; [skip] counts the bytes of the
    current rune still to drop. *)
Fixpoint trimFront (width : list Z -> nat) (skip : nat) (s : list ascii)
  : list ascii :=
  match s with
  | [] => []
  | c :: s' =>
      match skip with
      | S k => trimFront width k s'
      | O => match width (map code s) with
             | O => s
             | S k => trimFront width k s'
             end
      end
  end.

(** [strings.TrimSpace]: leading, then trailing white space removed. *)
Definition TrimSpace (s : string) : string :=
  let front := trimFront spaceWidth 0 (list_ascii_of_string s) in
  string_of_list_ascii (rev (trimFront spaceWidthRev 0 (rev front))).

(** [bytes.TrimSpace]. *)
Definition bytesTrimSpace (b : list byte) : list byte :=
  list_byte_of_string (TrimSpace (string_of_list_byte b)).

(** ** Package strconv *)

Definition syntaxError (fn s : string) : error := NumError fn s ErrSyntax.
Definition rangeError (fn s : string) : error := NumError fn s ErrRange.

(** The loop of [strconv.ParseUint] for base 10: [n] is the value read so
    far, [s0] the whole argument (for the error), [maxVal] is
    [1<<bitSize - 1]. *)
Fixpoint parseUintLoop (s0 : string) (maxVal : Z) (s : string) (n : Z)
  : Z * option error :=
  match s with
  | EmptyString => (n, None)
  | String c s' =>
      if (code "0" <=? code c) && (code c <=? code "9") then
        let d := code c - code "0" in
        if n >=? (2 ^ 64 - 1) / 10 + 1 then
          (maxVal, Some (rangeError "ParseUint" s0))
        else
          let n1 := n * 10 + d in
          if (n1 >=? 2 ^ 64) || (n1 >? maxVal) then
            (maxVal, Some (rangeError "ParseUint" s0))
          else parseUintLoop s0 maxVal s' n1
      else (0, Some (syntaxError "ParseUint" s0))
  end.

(** [strconv.ParseUint(s, 10, bitSize)] for [0 < bitSize <= 64]. *)
Definition ParseUint (s : string) (bitSize : Z) : Z * option error :=
  match s with
  | EmptyString => (0, Some (syntaxError "ParseUint" s))
  | _ => parseUintLoop s (2 ^ bitSize - 1) s 0
  end.

(** [strconv.ParseInt(s, 10, bitSize)] for [0 < bitSize <= 64]. *)
Definition ParseInt (s0 : string) (bitSize : Z) : Z * option error :=
  match s0 with
  | EmptyString => (0, Some (syntaxError "ParseInt" s0))
  | String c rest =>
      let neg := Ascii.eqb c "-" in
      let s := if Ascii.eqb c "+" || neg then rest else s0 in
      let cutoff := 2 ^ (bitSize - 1) in
      match ParseUint s bitSize with
      | (_, Some (NumError _ _ ErrSyntax)) =>
          (0, Some (syntaxError "ParseInt" s0))
      | (un, _) =>
          if negb neg && (un >=? cutoff) then
            (cutoff - 1, Some (rangeError "ParseInt" s0))
          else if neg && (un >? cutoff) then
            (- cutoff, Some (rangeError "ParseInt" s0))
          else (if neg then - un else un, None)
      end
  end.

(** ** Decimal literals

    What a field of a csv payload has to be, in the words of the format: a
    non-empty string of decimal digits whose value fits 32 bits. *)

Definition isDigit (c : ascii) : bool :=
  (code "0" <=? code c) && (code c <=? code "9").

Fixpoint allDigits (s : string) : bool :=
  match s with
  | EmptyString => true
  | String c s' => isDigit c && allDigits s'
  end.

(** The value of the digits [s] read after the value [n]. *)
Fixpoint decimalFrom (n : Z) (s : string) : Z :=
  match s with
  | EmptyString => n
  | String c s' => decimalFrom (10 * n + (code c - code "0")) s'
  end.

Definition decimalValue (s : string) : Z := decimalFrom 0 s.

Definition isUint32Literal (s : string) : bool :=
  negb (String.eqb s "") && allDigits s && (decimalValue s <? 2 ^ 32).

(** The digits of a signed literal and its sign: an optional ['+'] or ['-']
    in front. *)
Definition isNegative (s : string) : bool :=
  match s with
  | String c _ => Ascii.eqb c "-"
  | EmptyString => false
  end.

Definition unsignedPart (s : string) : string :=
  match s with
  | String c rest => if Ascii.eqb c "+" || Ascii.eqb c "-" then rest else s
  | EmptyString => s
  end.

(** A field of a terrain descriptor: an optional sign, at least one decimal
    digit, and a value that fits a signed integer of 32 bits. *)
Definition isInt32Literal (s : string) : bool :=
  let digits := unsignedPart s in
  negb (String.eqb digits "") && allDigits digits
  && (if isNegative s then decimalValue digits <=? 2 ^ 31
      else decimalValue digits <? 2 ^ 31).

Definition int32Value (s : string) : Z :=
  if isNegative s then - decimalValue (unsignedPart s)
  else decimalValue (unsignedPart s).

(** ** Global identifiers (main.go, lines 20-75) *)

Definition GlobalID : Type := Z.
Definition TileID : Type := Z.

Definition TileFlippedHorizontally : Z := 0x80000000.
Definition TileFlippedVertically : Z := 0x40000000.
Definition TileFlippedDiagonally : Z := 0x20000000.
Definition TileFlipped : Z :=
  Z.lor (Z.lor TileFlippedHorizontally TileFlippedVertically)
        TileFlippedDiagonally.

(** ** Records *)

Record TerrainType : Type := mkTerrainType {
  TopLeft : TileID;
  TopRight : TileID;
  BottomLeft : TileID;
  BottomRight : TileID }.

(** [terrainType] is the cache field, a [*TerrainType]. *)
Record Tile : Type := mkTile {
  tileTileID : TileID;
  RawTerrainType : string;
  terrainType : option TerrainType }.

(** Of the fields of [TileSet] the functions below read [FirstGlobalID] and
    [Tiles]; [Name] identifies a tile-set in the examples. *)
Record TileSet : Type := mkTileSet {
  FirstGlobalID : GlobalID;
  Name : string;
  Tiles : list Tile }.

Record TileGlobalRef : Type := mkTileGlobalRef {
  tgrGlobalID : GlobalID }.

(** [tdTileSet] is a pointer into the tile-set slice given to [TileDefs]: the
    index of the element it points at.  [tdTile] is a pointer into the
    [Tiles] of that tile-set, again an index. *)
Record TileDef : Type := mkTileDef {
  Nil : bool;
  ID : TileID;
  tdGlobalID : GlobalID;
  tdTileSet : option nat;
  tdTile : option nat;
  HorizontallyFlipped : bool;
  VerticallyFlipped : bool;
  DiagonallyFlipped : bool }.

Record Data : Type := mkData {
  Encoding : string;
  Compression : string;
  dataTileGlobalRefs : list TileGlobalRef;
  RawBytes : list byte }.

(** [tileGlobalRefs] and [tileDefs] are the two cache fields. *)
Record Layer : Type := mkLayer {
  RawData : Data;
  tileGlobalRefs : list TileGlobalRef;
  tileDefs : list TileDef }.

(** [len(s) > 0] and [s != nil] for a slice built by [append]. *)
Definition nonempty {A : Type} (s : list A) : bool :=
  match s with
  | [] => false
  | _ :: _ => true
  end.

(** ** Instrumentation

    What a call did, besides computing its results: the calls it made to the
    decoders, to the sort and the scans of the tile-sets it ran.  The log is
    not part of the source; it records which lines were executed. *)
Inductive event : Type :=
| CallBytes
| CallDecodeB64
| CallDecodeCSV
| CallSort
| ScanTileSets (g : GlobalID).

(** ** Methods of [GlobalID] (main.go, lines 48-71) *)

Module GlobalID.

Definition IsFlippedHorizontally (g : GlobalID) : bool :=
  negb (Z.land g TileFlippedHorizontally =? 0).

Definition IsFlippedVertically (g : GlobalID) : bool :=
  negb (Z.land g TileFlippedVertically =? 0).

Definition IsFlippedDiagonally (g : GlobalID) : bool :=
  negb (Z.land g TileFlippedDiagonally =? 0).

(** [uint32(g &^ TileFlipped)] *)
Definition BareID (g : GlobalID) : Z := Z.ldiff g TileFlipped.

(** [TileID(g.BareID() - uint32(t.FirstGlobalID))], a subtraction of
    [uint32]. *)
Definition TileID (g : GlobalID) (t : TileSet) : TileID :=
  wrap32 (BareID g - FirstGlobalID t).

End GlobalID.

(** ** Payload decoders *)

Definition byteVal (b : byte) : Z := Z.of_N (Byte.to_N b).

(** [binary.LittleEndian.Uint32] on a slice of four bytes:
    [b0 | b1<<8 | b2<<16 | b3<<24]. *)
Definition Uint32 (b0 b1 b2 b3 : byte) : Z :=
  Z.lor (Z.lor (Z.lor (byteVal b0) (Z.shiftl (byteVal b1) 8))
               (Z.shiftl (byteVal b2) 16))
        (Z.shiftl (byteVal b3) 24).

(** The loop of [decodeB64LayerData]: one value for every four bytes.  It
    runs on a slice whose length is a multiple of four. *)
Fixpoint decodeGroups (b : list byte) : list Z :=
  match b with
  | b0 :: b1 :: b2 :: b3 :: rest => Uint32 b0 b1 b2 b3 :: decodeGroups rest
  | _ => []
  end.

Definition decodeB64LayerData (b : list byte) : list Z * option error :=
  let len := Z.of_nat (List.length b) in
  if negb (len mod 4 =? 0) then
    ([], Some (Errorf ("expected byte array to be divisible by 4, length was "
                       ++ fmtInt len)))
  else (decodeGroups b, None).

(** The loop of [decodeCSVLayerData]; [uis] is the slice built so far. *)
Fixpoint decodeFields (strs : list string) (uis : list Z)
  : list Z * option error :=
  match strs with
  | [] => (uis, None)
  | s :: rest =>
      match ParseUint (TrimSpace s) 32 with
      | (_, Some err) => ([], Some err)
      | (ui, None) => decodeFields rest (uis ++ [wrap32 ui])%list
      end
  end.

Definition decodeCSVLayerData (b : list byte) : list Z * option error :=
  decodeFields (Split (string_of_list_byte b) ",") [].

(** ** Methods of [TileSet] and the order of the sort *)

Module TileSet.

(** The loop of [TileWithID]; [i] is the index of the head of [tiles]. *)
Fixpoint tileWithIDFrom (tiles : list Tile) (id : TileID) (i : nat)
  : option nat :=
  match tiles with
  | [] => None
  | t :: rest =>
      if tileTileID t =? id then Some i else tileWithIDFrom rest id (S i)
  end.

(** [&t.Tiles[i]] for the first tile with that id, [nil] when none. *)
Definition TileWithID (t : TileSet) (id : TileID) : option nat :=
  tileWithIDFrom (Tiles t) id 0.

End TileSet.

Module byFirstGlobalID.

Definition Less (a b : TileSet) : bool :=
  FirstGlobalID a <? FirstGlobalID b.

(** What [sort.Sort] establishes: no element is [Less] than the one before
    it. *)
Definition ascending (a b : TileSet) : Prop := Less b a = false.

End byFirstGlobalID.

(** ** Methods of [Tile] (main.go, lines 227-265) *)

Module Tile.

(** The loop over the four fields; [tid] is the slice filled so far. *)
Fixpoint parseCorners (strs : list string) (tid : list TileID)
  : list TileID * option error :=
  match strs with
  | [] => (tid, None)
  | s :: rest =>
      let s := TrimSpace s in
      match ParseInt (TrimSpace s) 32 with
      | (_, Some err) => (tid, Some err)
      | (id, None) => parseCorners rest (tid ++ [wrap32 id])%list
      end
  end.

(** Results: the [*TerrainType], the error, the tile after the call. *)
Definition TerrainType (t : Tile)
  : option TerrainType * option error * Tile :=
  if String.eqb (RawTerrainType t) "" then
    (Some (mkTerrainType 0 0 0 0), None, t)
  else
    match terrainType t with
    | Some cached => (Some cached, None, t)
    | None =>
        let strs := Split (RawTerrainType t) "," in
        let l := List.length strs in
        if negb (Nat.eqb l 4) then
          (terrainType t,
           Some (Errorf ("unexpected terrain type specifier "
                         ++ RawTerrainType t ++ "; expected 4 values, got "
                         ++ fmtInt (Z.of_nat l))),
           t)
        else
          match parseCorners strs [] with
          | (_, Some err) => (terrainType t, Some err, t)
          | (tid, None) =>
              let corners := mkTerrainType (nth 0 tid 0) (nth 1 tid 0)
                                      (nth 2 tid 0) (nth 3 tid 0) in
              (Some corners, None,
               mkTile (tileTileID t) (RawTerrainType t) (Some corners))
          end
    end.

End Tile.

(** The corner a field of a terrain descriptor stands for:
    [TileID(id)] of its value, a conversion to [uint32]. *)
Definition cornerOf (s : string) : TileID := wrap32 (int32Value (TrimSpace s)).

(** ** Methods of [Data] (main.go, lines 421-467)

    The readers of the standard library are parameters.  Each stands for
    [ioutil.ReadAll] on the reader that [decodeB64Data] builds over the
    trimmed payload: the base64 decoder alone, or a zlib or gzip reader over
    it.  A reader yields the bytes read and the error, if any; a zlib or gzip
    reader that cannot be opened yields no bytes and the error of
    [NewReader]. *)

Module Data.
Section Readers.

Variables readBase64 readZlib readGzip : list byte -> list byte * option error.

Definition decodeB64Data (d : Data) : list byte * option error :=
  let raw := bytesTrimSpace (RawBytes d) in
  if String.eqb (Compression d) "zlib" then readZlib raw
  else if String.eqb (Compression d) "gzip" then readGzip raw
  else if String.eqb (Compression d) "" then readBase64 raw
  else ([], Some ErrUnsupportedCompression).

Definition Bytes (d : Data) : list byte * option error :=
  if String.eqb (Encoding d) "base64" then decodeB64Data d
  else if String.eqb (Encoding d) "csv" then (RawBytes d, None)
  else if String.eqb (Encoding d) "" then (RawBytes d, None)
  else ([], Some ErrUnsupportedEncoding).

End Readers.
End Data.

(** ** Methods of [Layer] (main.go, lines 305-406) *)

(** What [TileGlobalRefs] returns and leaves behind: the two results, the
    layer after the call and the log of the call. *)
Record refsResult : Type := mkRefsResult {
  refs : list TileGlobalRef;
  refsErr : option error;
  refsLayer : Layer;
  refsLog : list event }.

(** The same for [TileDefs], with the caller's tile-set slice after the
    call. *)
Record defsResult : Type := mkDefsResult {
  defs : list TileDef;
  defsErr : option error;
  defsLayer : Layer;
  defsTileSets : list TileSet;
  defsLog : list event }.

(** [&TileDef{Nil: true}] *)
Definition nilTileDef : TileDef :=
  mkTileDef true 0 0 None None false false false.

(** The error of main.go, line 385. *)
Definition noSuitableTileSet (g : GlobalID) : error :=
  Errorf ("no suitable tileset found for tile with global ID " ++ fmtInt g
          ++ "; the file is invalid").

Module Layer.

(** The scan of main.go, lines 373-381.  [i] is the index of the head of
    [tss], [ts] the pointer kept so far: an index and the tile-set there. *)
Fixpoint scanFrom (tss : list TileSet) (bid : Z) (i : nat)
                  (ts : option (nat * TileSet)) : option (nat * TileSet) :=
  match tss with
  | [] => ts
  | t :: rest =>
      if bid <? FirstGlobalID t then ts
      else scanFrom rest bid (S i) (Some (i, t))
  end.

Definition scan (tss : list TileSet) (bid : Z) : option (nat * TileSet) :=
  scanFrom tss bid 0 None.

(** The loop of main.go, lines 365-401, over the references left; [tds] is
    the slice built so far, [log] the log so far. *)
Fixpoint resolve (tss : list TileSet) (tgrs : list TileGlobalRef)
                 (tds : list TileDef) (log : list event)
  : list TileDef * option error * list event :=
  match tgrs with
  | [] => (tds, None, log)
  | tgr :: rest =>
      let g := tgrGlobalID tgr in
      let bid := GlobalID.BareID g in
      if bid =? 0 then resolve tss rest (tds ++ [nilTileDef])%list log
      else
        let log := (log ++ [ScanTileSets g])%list in
        match scan tss bid with
        | None => (tds, Some (noSuitableTileSet g), log)
        | Some (i, ts) =>
            let id := GlobalID.TileID g ts in
            let td := mkTileDef false id g (Some i)
                        (TileSet.TileWithID ts id)
                        (GlobalID.IsFlippedHorizontally g)
                        (GlobalID.IsFlippedVertically g)
                        (GlobalID.IsFlippedDiagonally g) in
            resolve tss rest (tds ++ [td])%list log
        end
  end.

Section Pipeline.

Variables readBase64 readZlib readGzip : list byte -> list byte * option error.

(** [sort.Sort(byFirstGlobalID(tss))]: the slice after the sort. *)
Variable sortTileSets : list TileSet -> list TileSet.

Definition TileGlobalRefs (l : Layer) : refsResult :=
  if nonempty (dataTileGlobalRefs (RawData l)) then
    mkRefsResult (dataTileGlobalRefs (RawData l)) None l []
  else if nonempty (tileGlobalRefs l) then
    mkRefsResult (tileGlobalRefs l) None l []
  else
    let cache (uis : list Z) (log : list event) :=
      let trs := map mkTileGlobalRef uis in
      mkRefsResult trs None (mkLayer (RawData l) trs (tileDefs l)) log in
    match Data.Bytes readBase64 readZlib readGzip (RawData l) with
    | (_, Some err) => mkRefsResult [] (Some err) l [CallBytes]
    | (bytes, None) =>
        if String.eqb (Encoding (RawData l)) "base64" then
          match decodeB64LayerData bytes with
          | (_, Some err) =>
              mkRefsResult [] (Some err) l [CallBytes; CallDecodeB64]
          | (uis, None) => cache uis [CallBytes; CallDecodeB64]
          end
        else if String.eqb (Encoding (RawData l)) "csv" then
          match decodeCSVLayerData bytes with
          | (_, Some err) =>
              mkRefsResult [] (Some err) l [CallBytes; CallDecodeCSV]
          | (uis, None) => cache uis [CallBytes; CallDecodeCSV]
          end
        else mkRefsResult [] (Some ErrUnsupportedEncoding) l [CallBytes]
    end.

Definition TileDefs (l : Layer) (tss : list TileSet) : defsResult :=
  if nonempty (tileDefs l) then mkDefsResult (tileDefs l) None l tss []
  else
    let r := TileGlobalRefs l in
    match refsErr r with
    | Some err => mkDefsResult [] (Some err) (refsLayer r) tss (refsLog r)
    | None =>
        let tss := sortTileSets tss in
        match resolve tss (refs r) [] (refsLog r ++ [CallSort])%list with
        | (tds, Some err, log) =>
            mkDefsResult tds (Some err) (refsLayer r) tss log
        | (tds, None, log) =>
            let l := refsLayer r in
            mkDefsResult tds None
              (mkLayer (RawData l) (tileGlobalRefs l) tds) tss log
        end
    end.

End Pipeline.
End Layer.

(** ** Cells

    What the loop of [TileDefs] does for one cell, stated for itself: the
    definition it appends for the global id [g] over the sorted tile-sets
    [tss], or [None] when it returns the error instead. *)
Definition tileDefFor (tss : list TileSet) (g : GlobalID) : option TileDef :=
  if GlobalID.BareID g =? 0 then Some nilTileDef
  else match Layer.scan tss (GlobalID.BareID g) with
       | None => None
       | Some (i, ts) =>
           Some (mkTileDef false (GlobalID.TileID g ts) g (Some i)
                   (TileSet.TileWithID ts (GlobalID.TileID g ts))
                   (GlobalID.IsFlippedHorizontally g)
                   (GlobalID.IsFlippedVertically g)
                   (GlobalID.IsFlippedDiagonally g))
       end.

Definition cellDef (tss : list TileSet) (tgr : TileGlobalRef) (td : TileDef)
  : Prop :=
  tileDefFor tss (tgrGlobalID tgr) = Some td.

Definition cellOk (tss : list TileSet) (tgr : TileGlobalRef) : Prop :=
  tileDefFor tss (tgrGlobalID tgr) <> None.

(** The scans logged for a run of cells: one for every cell whose bare id is
    not 0. *)
Fixpoint scansOf (tgrs : list TileGlobalRef) : list event :=
  match tgrs with
  | [] => []
  | tgr :: rest =>
      if GlobalID.BareID (tgrGlobalID tgr) =? 0 then scansOf rest
      else ScanTileSets (tgrGlobalID tgr) :: scansOf rest
  end.

(** A cell no tile-set of [tss] can own: its bare id is not 0 and is below
    every first global id. *)
Definition unresolvable (tss : list TileSet) (tgr : TileGlobalRef) : Prop :=
  GlobalID.BareID (tgrGlobalID tgr) <> 0
  /\ forall t, In t tss -> GlobalID.BareID (tgrGlobalID tgr) < FirstGlobalID t.

(** ** Instances of the parameters

    A sort and readers to run the pipeline on concrete layers. *)

Module Instances.

Fixpoint insert (t : TileSet) (tss : list TileSet) : list TileSet :=
  match tss with
  | [] => [t]
  | u :: rest =>
      if byFirstGlobalID.Less t u then t :: tss else u :: insert t rest
  end.

(** Insertion sort by [byFirstGlobalID.Less]. *)
Fixpoint sortTileSets (tss : list TileSet) : list TileSet :=
  match tss with
  | [] => []
  | t :: rest => insert t (sortTileSets rest)
  end.

Definition illegalBase64 : error := Foreign "illegal base64 data".

(** The value of a character of the standard alphabet. *)
Definition sextet (c : Z) : option Z :=
  if (65 <=? c) && (c <=? 90) then Some (c - 65)
  else if (97 <=? c) && (c <=? 122) then Some (c - 71)
  else if (48 <=? c) && (c <=? 57) then Some (c + 4)
  else if c =? 43 then Some 62
  else if c =? 47 then Some 63
  else None.

Definition byteOf (z : Z) : byte :=
  match Byte.of_N (Z.to_N (z mod 256)) with
  | Some b => b
  | None => x00
  end.

(** Quanta of four characters, padded with [=] at the end. *)
Fixpoint quanta (s : list Z) (out : list byte) : list byte * option error :=
  match s with
  | [] => (out, None)
  | a :: b :: c :: d :: rest =>
      match sextet a, sextet b, sextet c, sextet d with
      | Some va, Some vb, Some vc, Some vd =>
          let n := va * 2 ^ 18 + vb * 2 ^ 12 + vc * 2 ^ 6 + vd in
          quanta rest
            (out ++ [byteOf (n / 2 ^ 16); byteOf (n / 2 ^ 8); byteOf n])%list
      | Some va, Some vb, Some vc, None =>
          if (d =? 61) && negb (nonempty rest) then
            let n := va * 2 ^ 18 + vb * 2 ^ 12 + vc * 2 ^ 6 in
            ((out ++ [byteOf (n / 2 ^ 16); byteOf (n / 2 ^ 8)])%list, None)
          else (out, Some illegalBase64)
      | Some va, Some vb, None, _ =>
          if (c =? 61) && (d =? 61) && negb (nonempty rest) then
            let n := va * 2 ^ 18 + vb * 2 ^ 12 in
            ((out ++ [byteOf (n / 2 ^ 16)])%list, None)
          else (out, Some illegalBase64)
      | _, _, _, _ => (out, Some illegalBase64)
      end
  | _ => (out, Some illegalBase64)
  end.

(** Standard base64 with padding; line breaks are skipped. *)
Definition readBase64 (raw : list byte) : list byte * option error :=
  let cs := map byteVal raw in
  quanta (filter (fun c => negb ((c =? 10) || (c =? 13))) cs) [].

(** A reader that opens no stream: compressed payloads are outside the
    examples. *)
Definition readNone (raw : list byte) : list byte * option error :=
  ([], Some (Foreign "unexpected EOF")).

Definition TileGlobalRefs : Layer -> refsResult :=
  Layer.TileGlobalRefs readBase64 readNone readNone.

Definition TileDefs : Layer -> list TileSet -> defsResult :=
  Layer.TileDefs readBase64 readNone readNone sortTileSets.

End Instances.

(** ** Example layers and tile-sets *)

Module Examples.

(** A layer with a raw payload and empty caches. *)
Definition blob (encoding compression payload : string) : Layer :=
  mkLayer (mkData encoding compression [] (list_byte_of_string payload))
          [] [].

(** A layer with structured references next to a payload that no decoder
    accepts. *)
Definition structured (gids : list GlobalID) : Layer :=
  mkLayer (mkData "bogus" "lz4" (map mkTileGlobalRef gids)
                  (list_byte_of_string "not a payload"))
          [] [].

Definition A : TileSet := mkTileSet 1 "A" [].
Definition B : TileSet :=
  mkTileSet 100 "B" [mkTile 3 "" None; mkTile 0 "" None].
Definition C : TileSet := mkTileSet 250 "C" [].


(** Cell 100 is owned by B, cell 5 by no tile-set of [[B]]. *)
Definition strayCell : Layer := blob "csv" "" "100,5,0".


Definition twoRefs : Layer := structured [5; 0x80000064].

(** Three cells of bare id 0, two of them with flip bits. *)
Definition flippedNothing : Layer :=
  structured [0xE0000000; 0; 0x40000000].

End Examples.

(** ** Lookups by name (main.go, lines 107-141, 533-542, 626-635) *)

(** The loop [for i := range s { if p(s[i]) { return &s[i] } }; return nil]:
    the index of the first element that satisfies [p], counted from [i]. *)
Fixpoint firstIndexFrom {A : Type} (p : A -> bool) (s : list A) (i : nat)
  : option nat :=
  match s with
  | [] => None
  | a :: rest => if p a then Some i else firstIndexFrom p rest (S i)
  end.

(** The loop [for _, v := range s { if p(v) { return &v } }; return nil]: a
    pointer to a copy of the first element that satisfies [p]. *)
Fixpoint firstCopy {A : Type} (p : A -> bool) (s : list A) : option A :=
  match s with
  | [] => None
  | a :: rest => if p a then Some a else firstCopy p rest
  end.

(** ** Properties (main.go, lines 615-685) *)

Record Property : Type := mkProperty {
  propName : string;
  propType : string;
  propValue : string }.

(** The errors the typed getters return: package variables of main.go,
    lines 33-35. *)
Inductive propertyError : Type :=
| ErrPropertyNotFound
| ErrPropertyWrongType
| ErrPropertyFailedConversion.

Module Properties.

Definition WithName (pl : list Property) (name : string) : option Property :=
  firstCopy (fun p => String.eqb (propName p) name) pl.

(** [strconv.ParseInt(p.Value, 10, 64)]; the value returned next to
    [ErrPropertyFailedConversion] is the one [ParseInt] returned. *)
Definition Int (pl : list Property) (name : string)
  : Z * option propertyError :=
  match WithName pl name with
  | None => (0, Some ErrPropertyNotFound)
  | Some p =>
      if negb (String.eqb (propType p) "int") then
        (0, Some ErrPropertyWrongType)
      else
        match ParseInt (propValue p) 64 with
        | (v, Some _) => (v, Some ErrPropertyFailedConversion)
        | (v, None) => (v, None)
        end
  end.

Definition Bool (pl : list Property) (name : string)
  : bool * option propertyError :=
  match WithName pl name with
  | None => (false, Some ErrPropertyNotFound)
  | Some p =>
      if negb (String.eqb (propType p) "bool") then
        (false, Some ErrPropertyWrongType)
      else (String.eqb (propValue p) "true", None)
  end.

End Properties.

(** ** Polygons and polylines (main.go, lines 554-597) *)

Record Poly : Type := mkPoly { RawPoints : string }.

Record Point : Type := mkPoint { X : Z; Y : Z }.

Module Poly.

(** The error of main.go, line 571. *)
Definition badPoint (l : nat) (rpt : string) : error :=
  Errorf ("unexpected number of coordinates in point destructure: "
          ++ fmtInt (Z.of_nat l) ++ " in " ++ rpt).

(** The loop of [Points] over the tokens left; [pts] is the slice built so
    far, which is also what is returned next to an error. *)
Fixpoint pointsLoop (rpts : list string) (pts : list Point)
  : list Point * option error :=
  match rpts with
  | [] => (pts, None)
  | rpt :: rest =>
      let xy := Split rpt "," in
      let l := List.length xy in
      if negb (Nat.eqb l 2) then (pts, Some (badPoint l rpt))
      else
        match ParseInt (nth 0 xy "") 32 with
        | (_, Some err) => (pts, Some err)
        | (x, None) =>
            match ParseInt (nth 1 xy "") 32 with
            | (_, Some err) => (pts, Some err)
            | (y, None) => pointsLoop rest (pts ++ [mkPoint x y])%list
            end
        end
  end.

Definition Points (p : Poly) : list Point * option error :=
  pointsLoop (Split (RawPoints p) " ") [].

End Poly.

(** ** Objects, object groups and the map (main.go, lines 77-141, 489-552) *)

Record Tag : Type := mkTag {
  XMLNameLocal : string;
  Content : string }.

Record Object : Type := mkObject {
  objName : string;
  objProperties : list Property;
  Polygons : list Poly;
  Polylines : list Poly;
  RawExtra : list Tag }.

Record ObjectGroup : Type := mkObjectGroup {
  groupName : string;
  Objects : list Object }.

(** Of the slices of [Map] the tile-sets and the object groups; the layers
    are looked up by the same loop over a field that [Layer] above does not
    carry. *)
Record Map : Type := mkMap {
  TileSets : list TileSet;
  ObjectGroups : list ObjectGroup }.

Module Objects.

Definition WithName (ol : list Object) (name : string) : option Object :=
  firstCopy (fun o => String.eqb (objName o) name) ol.

End Objects.

Module Object.

(** The loop of [Ellipse]. *)
Fixpoint hasEllipse (extra : list Tag) : bool :=
  match extra with
  | [] => false
  | e :: rest =>
      if String.eqb (XMLNameLocal e) "ellipse" then true else hasEllipse rest
  end.

Definition Ellipse (o : Object) : bool := hasEllipse (RawExtra o).

End Object.

Module Map.

(** [&m.TileSets[i]], as an index, or [nil]. *)
Definition TileSetWithName (m : Map) (name : string) : option nat :=
  firstIndexFrom (fun t => String.eqb (Name t) name) (TileSets m) 0.

Definition ObjectGroupWithName (m : Map) (name : string) : option nat :=
  firstIndexFrom (fun g => String.eqb (groupName g) name) (ObjectGroups m) 0.

End Map.

(** ** Literals of 64 bits

    What the value of an integer property has to be. *)
Definition isInt64Literal (s : string) : bool :=
  let digits := unsignedPart s in
  negb (String.eqb digits "") && allDigits digits
  && (if isNegative s then decimalValue digits <=? 2 ^ 63
      else decimalValue digits <? 2 ^ 63).

(** ** Packing a global identifier

    The inverse of the three predicates and [BareID]: the flag bits set as
    asked over a bare id. *)
Definition packGlobalID (h v d : bool) (bare : Z) : GlobalID :=
  Z.lor (Z.lor (Z.lor (if h then TileFlippedHorizontally else 0)
                      (if v then TileFlippedVertically else 0))
               (if d then TileFlippedDiagonally else 0))
        bare.

(** ** Encoding a payload

    The little-endian bytes of a sequence of values, four for each: what
    [decodeB64LayerData] reads back. *)
Fixpoint bytesOf (uis : list Z) : list byte :=
  match uis with
  | [] => []
  | v :: rest =>
      Instances.byteOf v :: Instances.byteOf (v / 2 ^ 8)
      :: Instances.byteOf (v / 2 ^ 16) :: Instances.byteOf (v / 2 ^ 24)
      :: bytesOf rest
  end.

(** ** Point tokens

    What a token of a point list has to be: two signed decimal literals of
    32 bits with one [','] between them, and nothing else. *)
Definition isPointToken (rpt : string) : bool :=
  match Split rpt "," with
  | [x; y] => isInt32Literal x && isInt32Literal y
  | _ => false
  end.

Definition pointOf (rpt : string) : Point :=
  let xy := Split rpt "," in
  mkPoint (int32Value (nth 0 xy "")) (int32Value (nth 1 xy "")).

(** ** More example layers *)

Module Examples2.

(** Five cells over the tile-sets A, B and C of [Examples]: the third is
    cell 100 with the horizontal flag. *)
Definition fiveCells : Layer :=
  Examples.blob "csv" "" "250,0,2147483748,99, 103".

(** A csv payload as an editor writes it, one row a line with a comma at
    the end of every row but the last, under a compression tag. *)
Definition rows : Layer :=
  mkLayer (mkData "csv" "zlib" []
             (list_byte_of_string "
1,2,
3,4
"))
          [] [].

Definition unknownEncoding : Layer := Examples.blob "xml" "" "1,2".

Definition unknownCompression : Layer := Examples.blob "base64" "lz4" "AQAAAA==".

End Examples2.

(** * Properties *)

(** ** Bits of a [uint32] *)

Lemma land_pow2_testbit (a n : Z) :
  0 <= n -> negb (Z.land a (2 ^ n) =? 0) = Z.testbit a n.
Proof.
  intros Hn. destruct (Z.testbit a n) eqn:E.
  - destruct (Z.eqb_spec (Z.land a (2 ^ n)) 0) as [H0|]; [|reflexivity].
    assert (B : Z.testbit (Z.land a (2 ^ n)) n = true).
    { rewrite Z.land_spec, E, Z.pow2_bits_true by lia. reflexivity. }
    rewrite H0, Z.bits_0 in B. discriminate.
  - replace (Z.land a (2 ^ n)) with 0; [reflexivity|].
    symmetry. apply Z.bits_inj'. intros m Hm.
    rewrite Z.land_spec, Z.bits_0, Z.pow2_bits_eqb by lia.
    destruct (Z.eqb_spec n m) as [->|]; [rewrite E|]; auto using andb_false_r.
Qed.

Lemma uint32_bits_high (a k : Z) : is_uint32 a -> 32 <= k -> Z.testbit a k = false.
Proof.
  intros [Ha Hb] Hk.
  rewrite <- (Z.mod_small a (2 ^ 32)) by lia.
  apply Z.mod_pow2_bits_high. lia.
Qed.

Lemma TileFlipped_bits (k : Z) :
  0 <= k -> Z.testbit TileFlipped k = (k =? 31) || (k =? 30) || (k =? 29).
Proof.
  intros Hk. unfold TileFlipped, TileFlippedHorizontally,
    TileFlippedVertically, TileFlippedDiagonally.
  change 0x80000000 with (2 ^ 31). change 0x40000000 with (2 ^ 30).
  change 0x20000000 with (2 ^ 29).
  rewrite !Z.lor_spec, !Z.pow2_bits_eqb by lia.
  rewrite (Z.eqb_sym 31), (Z.eqb_sym 30), (Z.eqb_sym 29). reflexivity.
Qed.

Lemma BareID_bits (g k : Z) :
  0 <= k ->
  Z.testbit (GlobalID.BareID g) k
  = Z.testbit g k && negb ((k =? 31) || (k =? 30) || (k =? 29)).
Proof.
  intros Hk. unfold GlobalID.BareID.
  rewrite Z.ldiff_spec, TileFlipped_bits by lia. reflexivity.
Qed.

Lemma BareID_mod (g : Z) : is_uint32 g -> GlobalID.BareID g = g mod 2 ^ 29.
Proof.
  intros Hg. rewrite <- Z.land_ones by lia.
  apply Z.bits_inj'. intros k Hk.
  rewrite BareID_bits, Z.land_spec by lia.
  destruct (Z.ltb_spec k 29).
  - rewrite Z.ones_spec_low by lia.
    replace (k =? 31) with false by lia. replace (k =? 30) with false by lia.
    replace (k =? 29) with false by lia. reflexivity.
  - rewrite Z.ones_spec_high by lia. rewrite andb_false_r.
    destruct (Z.ltb_spec k 32).
    + assert (k = 29 \/ k = 30 \/ k = 31) as [->| [->| ->]] by lia;
        simpl; apply andb_false_r.
    + rewrite uint32_bits_high by (auto; lia). reflexivity.
Qed.

Lemma BareID_bounds (g : Z) : is_uint32 g -> 0 <= GlobalID.BareID g < 2 ^ 29.
Proof.
  intros Hg. rewrite (BareID_mod g Hg). apply Z.mod_pos_bound. lia.
Qed.

(** C2. For every 32-bit [raw], the bare id is [raw] with bits 31, 30 and 29
    cleared, that is [raw & ~(0x80000000|0x40000000|0x20000000)] with the
    complement taken on 32 bits; it is again a 32-bit value (below 2^29); and
    the horizontal, vertical and diagonal predicates are bit 31, bit 30 and
    bit 29 of [raw].  The four functions are total and have no error
    result. *)
Theorem global_id_codec (raw : GlobalID) (Hraw : is_uint32 raw) :
  GlobalID.BareID raw
  = Z.land raw (Z.lxor 0xFFFFFFFF
                  (Z.lor (Z.lor 0x80000000 0x40000000) 0x20000000))
  /\ (forall k, 0 <= k ->
        Z.testbit (GlobalID.BareID raw) k
        = Z.testbit raw k && negb ((k =? 31) || (k =? 30) || (k =? 29)))
  /\ 0 <= GlobalID.BareID raw < 2 ^ 29
  /\ GlobalID.IsFlippedHorizontally raw = Z.testbit raw 31
  /\ GlobalID.IsFlippedVertically raw = Z.testbit raw 30
  /\ GlobalID.IsFlippedDiagonally raw = Z.testbit raw 29.
Proof.
  repeat split.
  - rewrite (BareID_mod raw Hraw), <- Z.land_ones by lia. reflexivity.
  - intros k Hk. apply BareID_bits, Hk.
  - apply BareID_bounds, Hraw.
  - apply BareID_bounds, Hraw.
  - apply (land_pow2_testbit raw 31). lia.
  - apply (land_pow2_testbit raw 30). lia.
  - apply (land_pow2_testbit raw 29). lia.
Qed.

(** C2 at [0xA0000007]: bits 31 and 29 set, bare id 7. *)
Lemma global_id_codec_witness :
  GlobalID.BareID 0xA0000007 = 7
  /\ GlobalID.IsFlippedHorizontally 0xA0000007 = true
  /\ GlobalID.IsFlippedVertically 0xA0000007 = false
  /\ GlobalID.IsFlippedDiagonally 0xA0000007 = true.
Proof.
  assert (H : is_uint32 0xA0000007) by (unfold is_uint32; lia).
  destruct (global_id_codec 0xA0000007 H) as (Hb & _ & _ & Hh & Hv & Hd).
  rewrite Hb, Hh, Hv, Hd. repeat split; reflexivity.
Defined.

(** C10. The local tile id is defined for every global id and every
    tile-set: it is the bare id minus the first global id of the tile-set,
    taken modulo 2^32, hence a 32-bit value.  When the bare id is below the
    first global id the call does not fail: the result is the difference
    plus 2^32. *)
Theorem tile_id_wraps (g : GlobalID) (t : TileSet) :
  GlobalID.TileID g t = (GlobalID.BareID g - FirstGlobalID t) mod 2 ^ 32
  /\ is_uint32 (GlobalID.TileID g t)
  /\ (is_uint32 g -> is_uint32 (FirstGlobalID t) ->
      (FirstGlobalID t <= GlobalID.BareID g ->
       GlobalID.TileID g t = GlobalID.BareID g - FirstGlobalID t)
      /\ (GlobalID.BareID g < FirstGlobalID t ->
          GlobalID.TileID g t
          = GlobalID.BareID g - FirstGlobalID t + 2 ^ 32)).
Proof.
  unfold GlobalID.TileID, wrap32, is_uint32. split; [reflexivity|]. split.
  - apply Z.mod_pos_bound. lia.
  - intros Hg Ht. pose proof (BareID_bounds g Hg) as Hb.
    split; intros Hlt.
    + apply Z.mod_small. lia.
    + symmetry. apply Z.mod_unique with (q := -1); lia.
Qed.

(** C10 at bare id 5 and first global id 10: the result is 2^32 - 5. *)
Lemma tile_id_wraps_witness :
  GlobalID.TileID 5 (mkTileSet 10 "B" []) = 4294967291.
Proof.
  destruct (tile_id_wraps 5 (mkTileSet 10 "B" [])) as (_ & _ & H).
  destruct H as [_ H]; [unfold is_uint32; lia | unfold is_uint32; simpl; lia |].
  rewrite H; [reflexivity | vm_compute; reflexivity].
Defined.

(** ** The base64 payload *)

Lemma byteVal_bounds (b : byte) : 0 <= byteVal b < 2 ^ 8.
Proof. destruct b; vm_compute; split; congruence. Qed.

Lemma lor_shiftl_add (a b n : Z) :
  0 <= n -> 0 <= a < 2 ^ n -> Z.lor a (Z.shiftl b n) = a + 2 ^ n * b.
Proof.
  intros Hn Ha.
  assert (H0 : Z.land a (Z.shiftl b n) = 0).
  { apply Z.bits_inj'. intros m Hm. rewrite Z.land_spec, Z.bits_0.
    destruct (Z.ltb_spec m n).
    - rewrite Z.shiftl_spec_low by lia. apply andb_false_r.
    - rewrite <- (Z.mod_small a (2 ^ n)) by lia.
      rewrite Z.mod_pow2_bits_high by lia. reflexivity. }
  pose proof (Z.add_lor_land a (Z.shiftl b n)) as H.
  rewrite H0 in H. rewrite Z.shiftl_mul_pow2 in * by lia. lia.
Qed.

Lemma Uint32_little_endian (b0 b1 b2 b3 : byte) :
  Uint32 b0 b1 b2 b3
  = byteVal b0 + 2 ^ 8 * byteVal b1 + 2 ^ 16 * byteVal b2
    + 2 ^ 24 * byteVal b3.
Proof.
  unfold Uint32.
  pose proof (byteVal_bounds b0). pose proof (byteVal_bounds b1).
  pose proof (byteVal_bounds b2). pose proof (byteVal_bounds b3).
  change (2 ^ 8) with 256 in *. change (2 ^ 16) with 65536.
  change (2 ^ 24) with 16777216.
  rewrite (lor_shiftl_add (byteVal b0) _ 8) by (change (2 ^ 8) with 256; lia).
  rewrite (lor_shiftl_add _ (byteVal b2) 16)
    by (change (2 ^ 8) with 256; change (2 ^ 16) with 65536; lia).
  rewrite (lor_shiftl_add _ (byteVal b3) 24)
    by (change (2 ^ 8) with 256; change (2 ^ 16) with 65536;
        change (2 ^ 24) with 16777216; lia).
  reflexivity.
Qed.

Lemma decodeGroups_length (n : nat) :
  forall b, List.length b = (4 * n)%nat -> List.length (decodeGroups b) = n.
Proof.
  induction n as [|n IH]; intros b Hb.
  - destruct b; [reflexivity | discriminate].
  - destruct b as [|b0 [|b1 [|b2 [|b3 rest]]]]; simpl in Hb; try lia.
    simpl. f_equal. apply IH. lia.
Qed.

Lemma decodeGroups_nth (k : nat) :
  forall b, (4 * k + 3 < List.length b)%nat ->
  nth k (decodeGroups b) 0
  = Uint32 (nth (4 * k) b x00) (nth (4 * k + 1) b x00)
           (nth (4 * k + 2) b x00) (nth (4 * k + 3) b x00).
Proof.
  induction k as [|k IH]; intros b Hb;
    destruct b as [|b0 [|b1 [|b2 [|b3 rest]]]]; simpl in Hb; try lia.
  - reflexivity.
  - replace (4 * S k)%nat with (4 + 4 * k)%nat by lia.
    cbn [decodeGroups nth Nat.add]. apply IH. lia.
Qed.

(** C3. When the number of bytes is not divisible by 4 the decoder fails
    with the error that reports the length; otherwise it succeeds with one
    value for each group of four consecutive bytes, in the order of the
    stream, and the value of group [k] is little-endian: byte [4k] counts
    once, byte [4k+1] 2^8 times, byte [4k+2] 2^16 times and byte [4k+3]
    2^24 times. *)
Theorem decodeB64LayerData_groups (b : list byte) :
  (Z.of_nat (List.length b) mod 4 <> 0 ->
   decodeB64LayerData b
   = ([], Some (Errorf
                  ("expected byte array to be divisible by 4, length was "
                   ++ fmtInt (Z.of_nat (List.length b))))))
  /\ (Z.of_nat (List.length b) mod 4 = 0 ->
      exists uis,
        decodeB64LayerData b = (uis, None)
        /\ (4 * List.length uis = List.length b)%nat
        /\ forall k, (k < List.length uis)%nat ->
             nth k uis 0
             = byteVal (nth (4 * k) b x00)
               + 2 ^ 8 * byteVal (nth (4 * k + 1) b x00)
               + 2 ^ 16 * byteVal (nth (4 * k + 2) b x00)
               + 2 ^ 24 * byteVal (nth (4 * k + 3) b x00)).
Proof.
  unfold decodeB64LayerData. split; intros H.
  - destruct (Z.eqb_spec (Z.of_nat (List.length b) mod 4) 0); [lia|].
    reflexivity.
  - rewrite H. simpl. exists (decodeGroups b).
    assert (Hn : exists n, List.length b = (4 * n)%nat).
    { exists (Z.to_nat (Z.of_nat (List.length b) / 4)).
      pose proof (Z.div_mod (Z.of_nat (List.length b)) 4). lia. }
    destruct Hn as [n Hn].
    pose proof (decodeGroups_length n b Hn) as Hlen.
    split; [reflexivity|]. split; [lia|].
    intros k Hk. rewrite decodeGroups_nth by lia.
    apply Uint32_little_endian.
Qed.

(** C3 at a payload of 7 bytes, which is refused, and at the 8 bytes
    [01 00 00 00 00 01 00 80], which give [1] and [0x80000100]. *)
Lemma decodeB64LayerData_groups_witness :
  decodeB64LayerData [x01; x00; x00; x00; x02; x00; x00]
  = ([], Some (Errorf
                 "expected byte array to be divisible by 4, length was 7"))
  /\ decodeB64LayerData [x01; x00; x00; x00; x00; x01; x00; x80]
     = ([1; 0x80000100], None).
Proof.
  split.
  - apply (decodeB64LayerData_groups [x01; x00; x00; x00; x02; x00; x00]).
    vm_compute. discriminate.
  - destruct (decodeB64LayerData_groups
                [x01; x00; x00; x00; x00; x01; x00; x80]) as [_ H].
    destruct H as (uis & Hd & Hlen & Hnth); [reflexivity|].
    rewrite Hd. f_equal.
    destruct uis as [|u0 [|u1 [|u2 uis]]]; simpl in Hlen; try lia.
    pose proof (Hnth 0%nat ltac:(simpl; lia)) as H0.
    pose proof (Hnth 1%nat ltac:(simpl; lia)) as H1.
    simpl in H0, H1. rewrite H0, H1. reflexivity.
Defined.

(** ** The csv payload *)

Lemma isDigit_bounds (c : ascii) :
  isDigit c = true -> 0 <= code c - code "0" <= 9.
Proof.
  unfold isDigit. change (code "0") with 48. change (code "9") with 57. lia.
Qed.

Lemma decimalFrom_ge (s : string) :
  forall n, 0 <= n -> allDigits s = true -> n <= decimalFrom n s.
Proof.
  induction s as [|c s IH]; intros n Hn Hs; cbn [allDigits decimalFrom] in *;
    [lia|].
  apply andb_prop in Hs as [Hc Hs]. apply isDigit_bounds in Hc.
  assert (H0 : 0 <= 10 * n + (code c - code "0")) by lia.
  specialize (IH _ H0 Hs). lia.
Qed.

Ltac parse_step c n :=
  change ((2 ^ 64 - 1) / 10 + 1) with 1844674407370955162;
  change (2 ^ 64) with 18446744073709551616;
  change (2 ^ 32) with 4294967296 in *;
  replace (n * 10) with (10 * n) by lia;
  destruct (Z.geb_spec n 1844674407370955162); [lia|];
  destruct (Z.geb_spec (10 * n + (code c - code "0")) 18446744073709551616);
    [lia|];
  cbn [orb].

Lemma parseUintLoop_accepts (s0 s : string) :
  forall n, 0 <= n -> allDigits s = true -> decimalFrom n s < 2 ^ 32 ->
  parseUintLoop s0 (2 ^ 32 - 1) s n = (decimalFrom n s, None).
Proof.
  induction s as [|c s IH]; intros n Hn Hs Hv;
    cbn [allDigits decimalFrom parseUintLoop] in *; [reflexivity|].
  apply andb_prop in Hs as [Hc Hs].
  pose proof (isDigit_bounds c Hc) as Hd.
  unfold isDigit in Hc. rewrite Hc.
  assert (H0 : 0 <= 10 * n + (code c - code "0")) by lia.
  pose proof (decimalFrom_ge s _ H0 Hs).
  parse_step c n.
  destruct (Z.gtb_spec (10 * n + (code c - code "0")) (4294967296 - 1));
    [lia|].
  apply IH; assumption.
Qed.

Lemma parseUintLoop_rejects (s0 s : string) :
  forall n, 0 <= n < 2 ^ 32 ->
  allDigits s && (decimalFrom n s <? 2 ^ 32) = false ->
  parseUintLoop s0 (2 ^ 32 - 1) s n = (0, Some (syntaxError "ParseUint" s0))
  \/ parseUintLoop s0 (2 ^ 32 - 1) s n
     = (2 ^ 32 - 1, Some (rangeError "ParseUint" s0)).
Proof.
  induction s as [|c s IH]; intros n Hn Hs;
    cbn [allDigits decimalFrom parseUintLoop] in *.
  - destruct (Z.ltb_spec n (2 ^ 32)); [discriminate | lia].
  - fold (isDigit c). destruct (isDigit c) eqn:Hc; [|left; reflexivity].
    pose proof (isDigit_bounds c Hc) as Hd.
    parse_step c n.
    destruct (Z.gtb_spec (10 * n + (code c - code "0")) (4294967296 - 1)).
    + right. reflexivity.
    + apply IH; [lia | exact Hs].
Qed.

Lemma decimalValue_bounds (s : string) :
  isUint32Literal s = true -> 0 <= decimalValue s < 2 ^ 32.
Proof.
  unfold isUint32Literal. intros H.
  apply andb_prop in H as [H Hv]. apply andb_prop in H as [_ Hs].
  pose proof (decimalFrom_ge s 0 ltac:(lia) Hs). unfold decimalValue in *. lia.
Qed.

Lemma ParseUint_accepts (s : string) :
  isUint32Literal s = true -> ParseUint s 32 = (decimalValue s, None).
Proof.
  intros H. pose proof (decimalValue_bounds s H) as Hb.
  unfold isUint32Literal in H.
  apply andb_prop in H as [H Hv]. apply andb_prop in H as [Hne Hs].
  destruct s as [|c s]; [discriminate|]. unfold ParseUint.
  apply parseUintLoop_accepts; [lia | exact Hs | apply Hb].
Qed.

Lemma ParseUint_rejects (s : string) :
  isUint32Literal s = false ->
  ParseUint s 32 = (0, Some (syntaxError "ParseUint" s))
  \/ ParseUint s 32 = (2 ^ 32 - 1, Some (rangeError "ParseUint" s)).
Proof.
  intros H. destruct s as [|c s]; [left; reflexivity|].
  unfold ParseUint. apply parseUintLoop_rejects; [lia|]. exact H.
Qed.

Lemma decodeFields_all (strs : list string) :
  forall uis,
  Forall (fun s => isUint32Literal (TrimSpace s) = true) strs ->
  decodeFields strs uis
  = ((uis ++ map (fun s => decimalValue (TrimSpace s)) strs)%list, None).
Proof.
  induction strs as [|s strs IH]; intros uis H; cbn [decodeFields map].
  - rewrite app_nil_r. reflexivity.
  - inversion H as [|? ? Hs Hrest]; subst.
    rewrite (ParseUint_accepts _ Hs), IH by exact Hrest.
    rewrite <- app_assoc. cbn [app]. unfold wrap32.
    rewrite Z.mod_small by apply (decimalValue_bounds _ Hs). reflexivity.
Qed.

Lemma decodeFields_first_bad (pre : list string) :
  forall s post uis,
  Forall (fun s => isUint32Literal (TrimSpace s) = true) pre ->
  isUint32Literal (TrimSpace s) = false ->
  exists cause,
    decodeFields (pre ++ s :: post) uis
    = ([], Some (NumError "ParseUint" (TrimSpace s) cause)).
Proof.
  induction pre as [|p pre IH]; intros s post uis Hpre Hs;
    cbn [decodeFields app].
  - destruct (ParseUint_rejects _ Hs) as [-> | ->];
      [exists ErrSyntax | exists ErrRange]; reflexivity.
  - inversion Hpre as [|? ? Hp Hrest]; subst.
    rewrite (ParseUint_accepts _ Hp). apply IH; assumption.
Qed.

Lemma Split_nonempty (s : string) (sep : ascii) :
  exists f fs, Split s sep = f :: fs.
Proof.
  destruct s as [|c s]; cbn [Split]; [eauto|].
  destruct (Ascii.eqb c sep); [eauto|].
  destruct (Split s sep); eauto.
Qed.

(** The fields of [Split], joined by the separator, are the string. *)
Lemma Split_join (s : string) (sep : ascii) :
  String.concat (String sep EmptyString) (Split s sep) = s.
Proof.
  induction s as [|c s IH]; [reflexivity|]. cbn [Split].
  destruct (Split_nonempty s sep) as (f & fs & Hs). rewrite Hs in *.
  destruct (Ascii.eqb_spec c sep) as [->|_].
  - cbn [String.concat]. cbn. f_equal. exact IH.
  - destruct fs; cbn [String.concat] in *; cbn; f_equal; exact IH.
Qed.

(** No field of [Split] holds the separator. *)
Lemma Split_fields (s : string) (sep : ascii) :
  Forall (fun f => ~ In sep (list_ascii_of_string f)) (Split s sep).
Proof.
  induction s as [|c s IH]; cbn [Split].
  - constructor; [intros []|constructor].
  - destruct (Ascii.eqb_spec c sep) as [->|Hc].
    + constructor; [intros []|exact IH].
    + destruct (Split s sep) as [|f fs]; [constructor; [|constructor]|].
      * cbn. intros [H|[]]. congruence.
      * inversion IH as [|? ? Hf Hfs]; subst. constructor; [|exact Hfs].
        cbn. intros [H|H]; [congruence|exact (Hf H)].
Qed.

(** C6. The csv decoder cuts the text at every [','] (the fields joined by
    [","] are the text, and no field holds a [',']), trims white space around
    each field and reads each as a decimal literal of 32 bits.  When every
    trimmed field is such a literal the result is their values in the order
    of the fields.  Otherwise the call fails at the first field that is not,
    with the [ParseUint] error whose [Num] is that trimmed field, and no
    values. *)
Theorem decodeCSVLayerData_fields (b : list byte) :
  let text := string_of_list_byte b in
  let fields := map TrimSpace (Split text ",") in
  String.concat "," (Split text ",") = text
  /\ Forall (fun f => ~ In ","%char (list_ascii_of_string f)) (Split text ",")
  /\ (Forall (fun f => isUint32Literal f = true) fields ->
      decodeCSVLayerData b = (map decimalValue fields, None))
  /\ (forall pre f post,
        fields = (pre ++ f :: post)%list ->
        Forall (fun f => isUint32Literal f = true) pre ->
        isUint32Literal f = false ->
        exists cause,
          decodeCSVLayerData b = ([], Some (NumError "ParseUint" f cause))).
Proof.
  intros text fields. split; [apply Split_join|].
  split; [apply Split_fields|]. unfold decodeCSVLayerData. fold text.
  subst fields. split.
  - intros H. rewrite Forall_map in H.
    rewrite (decodeFields_all _ [] H), map_map. reflexivity.
  - intros pre f post Heq Hpre Hf.
    apply map_eq_app in Heq as (pre0 & rest & Hsplit & Hpre0 & Hrest).
    apply map_eq_cons in Hrest as (s & post0 & -> & Hs & _).
    subst pre f. rewrite Hsplit. rewrite Forall_map in Hpre.
    apply decodeFields_first_bad; assumption.
Qed.

(** C6 at ["1, 2,3 ,4"], which gives [1; 2; 3; 4], and at ["1,x,3"], which
    fails with the error that names ["x"]. *)
Lemma decodeCSVLayerData_fields_witness :
  decodeCSVLayerData (list_byte_of_string "1, 2,3 ,4") = ([1; 2; 3; 4], None)
  /\ exists cause,
       decodeCSVLayerData (list_byte_of_string "1,x,3")
       = ([], Some (NumError "ParseUint" "x" cause)).
Proof.
  split.
  - destruct (decodeCSVLayerData_fields (list_byte_of_string "1, 2,3 ,4"))
      as (_ & _ & H & _).
    rewrite H; [reflexivity|]. repeat (constructor; [reflexivity|]). constructor.
  - destruct (decodeCSVLayerData_fields (list_byte_of_string "1,x,3"))
      as (_ & _ & _ & H).
    apply (H ["1"] "x" ["3"]); [reflexivity | | reflexivity].
    repeat constructor.
Defined.

(** ** Trimming twice *)

Lemma trimFront_suffix (w : list Z -> nat) (s : list ascii) :
  forall skip, exists pre, s = (pre ++ trimFront w skip s)%list.
Proof.
  induction s as [|c s IH]; intros skip; cbn [trimFront].
  - exists []. reflexivity.
  - destruct skip as [|k].
    + destruct (w (map code (c :: s))) as [|k].
      * exists []. reflexivity.
      * destruct (IH k) as [pre Hpre]. exists (c :: pre).
        cbn [app]. f_equal. exact Hpre.
    + destruct (IH k) as [pre Hpre]. exists (c :: pre).
      cbn [app]. f_equal. exact Hpre.
Qed.

Lemma trimFront_stops (w : list Z -> nat) (s : list ascii) :
  forall skip,
  trimFront w skip s = [] \/ w (map code (trimFront w skip s)) = 0%nat.
Proof.
  induction s as [|c s IH]; intros skip; cbn [trimFront]; [left; reflexivity|].
  destruct skip as [|k]; [|apply IH].
  destruct (w (map code (c :: s))) as [|k] eqn:E; [right; exact E | apply IH].
Qed.

Lemma trimFront_fixed (w : list Z -> nat) (s : list ascii) :
  s = [] \/ w (map code s) = 0%nat -> trimFront w 0 s = s.
Proof.
  intros [-> | H]; [reflexivity|].
  destruct s as [|c s]; [reflexivity|]. cbn [trimFront]. rewrite H.
  reflexivity.
Qed.

(** A prefix of a string that starts with no white space starts with none. *)
Lemma spaceWidth_prefix (a b : list Z) :
  spaceWidth (a ++ b) = 0%nat -> a = [] \/ spaceWidth a = 0%nat.
Proof.
  intros H. destruct a as [|c [|c1 [|c2 a]]]; [left; reflexivity| | |];
    right; cbn [app] in H.
  - destruct b as [|d [|d1 b]]; cbn [spaceWidth] in *;
      destruct (asciiSpace c); try discriminate; reflexivity.
  - destruct b as [|d b]; cbn [spaceWidth] in *;
      destruct (asciiSpace c); try discriminate;
      destruct (isSpace2 c c1); try discriminate; reflexivity.
  - exact H.
Qed.

Lemma TrimSpace_idempotent (s : string) : TrimSpace (TrimSpace s) = TrimSpace s.
Proof.
  unfold TrimSpace.
  set (a := trimFront spaceWidth 0 (list_ascii_of_string s)).
  set (b := trimFront spaceWidthRev 0 (rev a)).
  rewrite list_ascii_of_string_of_list_ascii.
  assert (Hb : rev b = [] \/ spaceWidth (map code (rev b)) = 0%nat).
  { destruct (trimFront_stops spaceWidth (list_ascii_of_string s) 0%nat)
      as [Ha | Ha]; fold a in Ha.
    - left. subst b. rewrite Ha. reflexivity.
    - destruct (trimFront_suffix spaceWidthRev (rev a) 0%nat) as [pre Hpre].
      fold b in Hpre. apply (f_equal (@rev ascii)) in Hpre.
      rewrite rev_involutive, rev_app_distr in Hpre.
      rewrite Hpre, map_app in Ha.
      destruct (spaceWidth_prefix _ _ Ha) as [H0 | H0]; [left|right; exact H0].
      destruct (rev b); [reflexivity | discriminate]. }
  rewrite (trimFront_fixed spaceWidth (rev b) Hb), rev_involutive.
  rewrite (trimFront_fixed spaceWidthRev b); [reflexivity|].
  apply trimFront_stops.
Qed.

(** ** Signed literals *)

Lemma ParseInt_accepts (s : string) :
  isInt32Literal s = true -> ParseInt s 32 = (int32Value s, None).
Proof.
  unfold isInt32Literal, int32Value. intros H.
  apply andb_prop in H as [H Hr]. 
  assert (Hu : isUint32Literal (unsignedPart s) = true).
  { unfold isUint32Literal. rewrite H. cbn [andb].
    change (2 ^ 32) with 4294967296. change (2 ^ 31) with 2147483648 in Hr.
    destruct (isNegative s); lia. }
  pose proof (decimalValue_bounds _ Hu) as Hb.
  destruct s as [|c s]; [discriminate|].
  cbn [ParseInt unsignedPart isNegative] in *.
  rewrite (ParseUint_accepts _ Hu).
  change (2 ^ (32 - 1)) with 2147483648. change (2 ^ 31) with 2147483648 in Hr.
  destruct (Ascii.eqb c "-"); cbn [negb andb].
  - destruct (Z.gtb_spec (decimalValue (if Ascii.eqb c "+" || true then s else String c s)) 2147483648);
      [lia | reflexivity].
  - destruct (Z.geb_spec (decimalValue (if Ascii.eqb c "+" || false then s else String c s)) 2147483648);
      [lia | reflexivity].
Qed.

Lemma ParseInt_rejects (s : string) :
  isInt32Literal s = false ->
  exists v cause, ParseInt s 32 = (v, Some (NumError "ParseInt" s cause)).
Proof.
  unfold isInt32Literal. intros H.
  destruct s as [|c s]; [exists 0, ErrSyntax; reflexivity|].
  cbn [ParseInt unsignedPart isNegative] in *.
  set (digits := if Ascii.eqb c "+" || Ascii.eqb c "-" then s else String c s) in *.
  change (2 ^ (32 - 1)) with 2147483648. change (2 ^ 31) with 2147483648 in H.
  destruct (isUint32Literal digits) eqn:Hu.
  - rewrite (ParseUint_accepts _ Hu).
    unfold isUint32Literal in Hu. apply andb_prop in Hu as [Hu _].
    rewrite Hu in H. cbn [andb] in H.
    destruct (Ascii.eqb c "-"); cbn [negb andb].
    + destruct (Z.gtb_spec (decimalValue digits) 2147483648); [|lia].
      exists (- 2147483648), ErrRange. reflexivity.
    + destruct (Z.geb_spec (decimalValue digits) 2147483648); [|lia].
      exists (2147483648 - 1), ErrRange. reflexivity.
  - destruct (ParseUint_rejects _ Hu) as [-> | ->].
    + exists 0, ErrSyntax. reflexivity.
    + change (2 ^ 32 - 1) with 4294967295.
      destruct (Ascii.eqb c "-"); cbn.
      * exists (- 2147483648), ErrRange. reflexivity.
      * exists (2147483648 - 1), ErrRange. reflexivity.
Qed.

(** ** The terrain descriptor *)

Lemma parseCorners_all (strs : list string) :
  forall tid,
  Forall (fun s => isInt32Literal (TrimSpace s) = true) strs ->
  Tile.parseCorners strs tid = ((tid ++ map cornerOf strs)%list, None).
Proof.
  induction strs as [|s strs IH]; intros tid H; cbn [Tile.parseCorners map].
  - rewrite app_nil_r. reflexivity.
  - inversion H as [|? ? Hs Hrest]; subst.
    rewrite TrimSpace_idempotent, (ParseInt_accepts _ Hs), IH by exact Hrest.
    rewrite <- app_assoc. reflexivity.
Qed.

Lemma parseCorners_first_bad (pre : list string) :
  forall s post tid,
  Forall (fun s => isInt32Literal (TrimSpace s) = true) pre ->
  isInt32Literal (TrimSpace s) = false ->
  exists cause,
    snd (Tile.parseCorners (pre ++ s :: post) tid)
    = Some (NumError "ParseInt" (TrimSpace s) cause).
Proof.
  induction pre as [|p pre IH]; intros s post tid Hpre Hs;
    cbn [Tile.parseCorners app].
  - rewrite TrimSpace_idempotent.
    destruct (ParseInt_rejects _ Hs) as (v & cause & ->).
    exists cause. reflexivity.
  - inversion Hpre as [|? ? Hp Hrest]; subst.
    rewrite TrimSpace_idempotent, (ParseInt_accepts _ Hp).
    apply IH; assumption.
Qed.

Lemma eqb_empty_false (raw : string) : raw <> "" -> String.eqb raw "" = false.
Proof. intros H. apply String.eqb_neq, H. Qed.

(** C9. The terrain descriptor of a tile.
    - An empty descriptor gives the zero-valued corners and no error,
      whatever the cache holds.
    - A descriptor that does not split at [','] into exactly 4 fields fails
      with the error that reports the number of fields.
    - A descriptor of 4 fields of which one, trimmed, is not a signed decimal
      literal of 32 bits fails with the [ParseInt] error of the first such
      field.
    - A descriptor of 4 literals gives their values as top-left, top-right,
      bottom-left and bottom-right corner and stores them in the tile;
      ["1,2,3,4"] gives 1, 2, 3 and 4.
    - A tile that holds stored corners returns them without reading the
      descriptor again: that holds for every non-empty descriptor, even one
      that would not parse. *)
Theorem TerrainType_descriptor (id : TileID) :
  (forall cache,
     Tile.TerrainType (mkTile id "" cache)
     = (Some (mkTerrainType 0 0 0 0), None, mkTile id "" cache))
  /\ (forall raw,
        raw <> "" -> List.length (Split raw ",") <> 4%nat ->
        Tile.TerrainType (mkTile id raw None)
        = (None,
           Some (Errorf ("unexpected terrain type specifier " ++ raw
                         ++ "; expected 4 values, got "
                         ++ fmtInt (Z.of_nat (List.length (Split raw ","))))),
           mkTile id raw None))
  /\ (forall raw pre f post,
        Split raw "," = (pre ++ f :: post)%list ->
        List.length (Split raw ",") = 4%nat ->
        Forall (fun s => isInt32Literal (TrimSpace s) = true) pre ->
        isInt32Literal (TrimSpace f) = false ->
        exists cause,
          Tile.TerrainType (mkTile id raw None)
          = (None, Some (NumError "ParseInt" (TrimSpace f) cause),
             mkTile id raw None))
  /\ (forall raw f0 f1 f2 f3,
        Split raw "," = [f0; f1; f2; f3] ->
        Forall (fun s => isInt32Literal (TrimSpace s) = true)
               [f0; f1; f2; f3] ->
        let corners := mkTerrainType (cornerOf f0) (cornerOf f1)
                                     (cornerOf f2) (cornerOf f3) in
        Tile.TerrainType (mkTile id raw None)
        = (Some corners, None, mkTile id raw (Some corners)))
  /\ Tile.TerrainType (mkTile id "1,2,3,4" None)
     = (Some (mkTerrainType 1 2 3 4), None,
        mkTile id "1,2,3,4" (Some (mkTerrainType 1 2 3 4)))
  /\ (forall raw cached,
        raw <> "" ->
        Tile.TerrainType (mkTile id raw (Some cached))
        = (Some cached, None, mkTile id raw (Some cached))).
Proof.
  split; [reflexivity|]. split.
  { intros raw Hraw Hlen. unfold Tile.TerrainType.
    cbn [RawTerrainType terrainType tileTileID].
    rewrite (eqb_empty_false raw Hraw).
    destruct (Nat.eqb_spec (List.length (Split raw ",")) 4); [contradiction|].
    reflexivity. }
  assert (Hne : forall raw, List.length (Split raw ",") = 4%nat ->
                String.eqb raw "" = false).
  { intros raw Hlen. destruct raw; [discriminate | reflexivity]. }
  split.
  { intros raw pre f post Hsplit Hlen Hpre Hf. unfold Tile.TerrainType.
    cbn [RawTerrainType terrainType tileTileID].
    rewrite (Hne raw Hlen), Hlen. cbn [Nat.eqb negb]. rewrite Hsplit.
    destruct (parseCorners_first_bad pre f post [] Hpre Hf) as [cause Hc].
    destruct (Tile.parseCorners (pre ++ f :: post) []) as [tid [e|]];
      cbn [snd] in Hc; [|discriminate].
    injection Hc as ->. exists cause. reflexivity. }
  split.
  { intros raw f0 f1 f2 f3 Hsplit Hall corners. unfold Tile.TerrainType.
    cbn [RawTerrainType terrainType tileTileID].
    rewrite (Hne raw) by (rewrite Hsplit; reflexivity).
    rewrite Hsplit. cbn [List.length Nat.eqb negb].
    rewrite (parseCorners_all _ [] Hall). reflexivity. }
  split; [reflexivity|].
  intros raw cached Hraw. unfold Tile.TerrainType.
  cbn [RawTerrainType terrainType tileTileID].
  rewrite (eqb_empty_false raw Hraw). reflexivity.
Qed.

(** C9 at ["1,2,3"], which is refused for its 3 fields, at ["1,x,3,4"], which
    is refused for ["x"], at [" -1 ,+2,3,4"], whose first corner wraps to
    2^32 - 1, and at a tile that holds corners next to the descriptor
    ["junk"]. *)
Lemma TerrainType_descriptor_witness :
  Tile.TerrainType (mkTile 7 "1,2,3" None)
  = (None,
     Some (Errorf
             "unexpected terrain type specifier 1,2,3; expected 4 values, got 3"),
     mkTile 7 "1,2,3" None)
  /\ (exists cause,
        Tile.TerrainType (mkTile 7 "1,x,3,4" None)
        = (None, Some (NumError "ParseInt" "x" cause),
           mkTile 7 "1,x,3,4" None))
  /\ Tile.TerrainType (mkTile 7 " -1 ,+2,3,4" None)
     = (Some (mkTerrainType 4294967295 2 3 4), None,
        mkTile 7 " -1 ,+2,3,4" (Some (mkTerrainType 4294967295 2 3 4)))
  /\ Tile.TerrainType (mkTile 7 "junk" (Some (mkTerrainType 1 2 3 4)))
     = (Some (mkTerrainType 1 2 3 4), None,
        mkTile 7 "junk" (Some (mkTerrainType 1 2 3 4))).
Proof.
  destruct (TerrainType_descriptor 7) as (_ & Hcount & Hbad & Hok & _ & Hmemo).
  split; [|split; [|split]].
  - apply (Hcount "1,2,3"); [discriminate | cbn; lia].
  - apply (Hbad "1,x,3,4" ["1"] "x" ["3"; "4"]);
      [reflexivity | reflexivity | | reflexivity].
    constructor; [reflexivity | constructor].
  - apply (Hok " -1 ,+2,3,4" " -1 " "+2" "3" "4"); [reflexivity|].
    repeat (constructor; [reflexivity|]). constructor.
  - apply Hmemo. discriminate.
Defined.

(** ** The scan of the tile-sets *)

Lemma ascending_le (a b : TileSet) :
  byFirstGlobalID.ascending a b <-> FirstGlobalID a <= FirstGlobalID b.
Proof.
  unfold byFirstGlobalID.ascending, byFirstGlobalID.Less. lia.
Qed.

Lemma ascending_StronglySorted (tss : list TileSet) :
  Sorted byFirstGlobalID.ascending tss ->
  StronglySorted byFirstGlobalID.ascending tss.
Proof.
  apply Sorted_StronglySorted. intros a b c Hab Hbc.
  rewrite ascending_le in *. lia.
Qed.

(** The scan stops at the first tile-set above [bid]: what follows it is not
    looked at. *)
Lemma scanFrom_stops (bid : Z) (pre : list TileSet) :
  forall t post i ts,
  bid < FirstGlobalID t ->
  Layer.scanFrom (pre ++ t :: post) bid i ts = Layer.scanFrom pre bid i ts.
Proof.
  induction pre as [|u pre IH]; intros t post i ts Ht;
    cbn [Layer.scanFrom app].
  - destruct (Z.ltb_spec bid (FirstGlobalID t)); [reflexivity | lia].
  - destruct (bid <? FirstGlobalID u); [reflexivity | apply IH, Ht].
Qed.

Lemma scanFrom_sorted (bid : Z) (tss : list TileSet) :
  StronglySorted byFirstGlobalID.ascending tss ->
  forall i ts0,
  (Layer.scanFrom tss bid i ts0 = ts0
   /\ forall t, In t tss -> bid < FirstGlobalID t)
  \/ exists j t,
       Layer.scanFrom tss bid i ts0 = Some ((i + j)%nat, t)
       /\ nth_error tss j = Some t
       /\ FirstGlobalID t <= bid
       /\ forall k u, nth_error tss k = Some u ->
                      FirstGlobalID u <= bid -> (k <= j)%nat.
Proof.
  induction 1 as [|t rest Hrest IH Hall]; intros i ts0; cbn [Layer.scanFrom].
  - left. split; [reflexivity | intros t []].
  - destruct (Z.ltb_spec bid (FirstGlobalID t)) as [Hlt|Hge].
    + left. split; [reflexivity|]. intros u [<-|Hu]; [exact Hlt|].
      rewrite Forall_forall in Hall. specialize (Hall u Hu).
      rewrite ascending_le in Hall. lia.
    + right. destruct (IH (S i) (Some (i, t))) as [[Heq Habove] | Hfound].
      * exists 0%nat, t. rewrite Heq, Nat.add_0_r.
        repeat split; [exact Hge|]. intros [|k] u Hk Hu; [lia|].
        cbn in Hk. apply nth_error_In in Hk. specialize (Habove u Hk). lia.
      * destruct Hfound as (j & u & Heq & Hnth & Hle & Hlast).
        exists (S j), u. rewrite Heq.
        replace (S i + j)%nat with (i + S j)%nat by lia.
        repeat split; [exact Hnth | exact Hle |].
        intros [|k] v Hk Hv; [lia|]. cbn in Hk.
        specialize (Hlast k v Hk Hv). lia.
Qed.

Lemma scan_None_above (bid : Z) (tss : list TileSet) :
  (forall t, In t tss -> bid < FirstGlobalID t) -> Layer.scan tss bid = None.
Proof.
  intros H. unfold Layer.scan. destruct tss as [|t rest]; [reflexivity|].
  cbn [Layer.scanFrom]. specialize (H t (or_introl eq_refl)).
  destruct (Z.ltb_spec bid (FirstGlobalID t)); [reflexivity | lia].
Qed.

Lemma scan_sorted (bid : Z) (tss : list TileSet) :
  Sorted byFirstGlobalID.ascending tss ->
  match Layer.scan tss bid with
  | Some (i, ts) =>
      nth_error tss i = Some ts
      /\ FirstGlobalID ts <= bid
      /\ forall j t, nth_error tss j = Some t ->
                     FirstGlobalID t <= bid -> (j <= i)%nat
  | None => forall t, In t tss -> bid < FirstGlobalID t
  end.
Proof.
  intros Hs. apply ascending_StronglySorted in Hs. unfold Layer.scan.
  destruct (scanFrom_sorted bid tss Hs 0%nat None)
    as [[-> Habove] | (j & t & -> & Hnth & Hle & Hlast)].
  - exact Habove.
  - cbn [Nat.add]. auto.
Qed.

(** ** The loop over the cells *)

Lemma tileDefFor_zero (tss : list TileSet) (g : GlobalID) :
  GlobalID.BareID g = 0 -> tileDefFor tss g = Some nilTileDef.
Proof. intros H. unfold tileDefFor. rewrite H. reflexivity. Qed.

Lemma tileDefFor_None (tss : list TileSet) (g : GlobalID) :
  tileDefFor tss g = None ->
  GlobalID.BareID g <> 0 /\ Layer.scan tss (GlobalID.BareID g) = None.
Proof.
  unfold tileDefFor.
  destruct (Z.eqb_spec (GlobalID.BareID g) 0); [discriminate|].
  destruct (Layer.scan tss (GlobalID.BareID g)) as [[i ts]|];
    [discriminate | auto].
Qed.

Lemma resolve_step_ok (tss : list TileSet) (tgr : TileGlobalRef)
      (rest : list TileGlobalRef) (td : TileDef)
      (tds : list TileDef) (log : list event) :
  cellDef tss tgr td ->
  Layer.resolve tss (tgr :: rest) tds log
  = Layer.resolve tss rest (tds ++ [td]) (log ++ scansOf [tgr]).
Proof.
  unfold cellDef, tileDefFor. intros H. cbn [Layer.resolve scansOf].
  destruct (GlobalID.BareID (tgrGlobalID tgr) =? 0).
  - injection H as <-. rewrite app_nil_r. reflexivity.
  - destruct (Layer.scan tss (GlobalID.BareID (tgrGlobalID tgr)))
      as [[i ts]|]; [|discriminate].
    injection H as <-. reflexivity.
Qed.

Lemma resolve_step_fail (tss : list TileSet) (tgr : TileGlobalRef)
      (rest : list TileGlobalRef) (tds : list TileDef) (log : list event) :
  tileDefFor tss (tgrGlobalID tgr) = None ->
  Layer.resolve tss (tgr :: rest) tds log
  = (tds, Some (noSuitableTileSet (tgrGlobalID tgr)),
     (log ++ scansOf [tgr])%list).
Proof.
  intros H. apply tileDefFor_None in H as [Hb Hs].
  cbn [Layer.resolve scansOf]. rewrite Hs.
  destruct (Z.eqb_spec (GlobalID.BareID (tgrGlobalID tgr)) 0);
    [contradiction | reflexivity].
Qed.

Lemma scansOf_app (a b : list TileGlobalRef) :
  scansOf (a ++ b) = (scansOf a ++ scansOf b)%list.
Proof.
  induction a as [|tgr a IH]; [reflexivity|]. cbn [scansOf app].
  destruct (GlobalID.BareID (tgrGlobalID tgr) =? 0); rewrite IH; reflexivity.
Qed.

Lemma cellOk_cellDef (tss : list TileSet) (tgr : TileGlobalRef) :
  cellOk tss tgr -> exists td, cellDef tss tgr td.
Proof.
  unfold cellOk, cellDef. destruct (tileDefFor tss (tgrGlobalID tgr));
    [eauto | contradiction].
Qed.

(** When every cell has a definition the loop returns them all, in order. *)
Lemma resolve_all (tss : list TileSet) (tgrs : list TileGlobalRef) :
  forall tds log,
  Forall (cellOk tss) tgrs ->
  exists out,
    Layer.resolve tss tgrs tds log
    = ((tds ++ out)%list, None, (log ++ scansOf tgrs)%list)
    /\ Forall2 (cellDef tss) tgrs out.
Proof.
  induction tgrs as [|tgr tgrs IH]; intros tds log Hok.
  - exists []. cbn. rewrite !app_nil_r. auto.
  - inversion Hok as [|? ? Htgr Hrest]; subst.
    destruct (cellOk_cellDef _ _ Htgr) as [td Htd].
    rewrite (resolve_step_ok _ _ _ _ _ _ Htd).
    destruct (IH (tds ++ [td])%list (log ++ scansOf [tgr])%list Hrest)
      as (out & -> & Hout).
    exists (td :: out). rewrite <- !app_assoc.
    change (tgr :: tgrs) with ([tgr] ++ tgrs)%list. rewrite scansOf_app.
    split; [reflexivity | constructor; assumption].
Qed.

(** At the first cell without a definition the loop returns the error for
    that cell and the definitions of the cells before it. *)
Lemma resolve_first_bad (tss : list TileSet) (pre : list TileGlobalRef) :
  forall tgr post tds log,
  Forall (cellOk tss) pre ->
  tileDefFor tss (tgrGlobalID tgr) = None ->
  exists out,
    Layer.resolve tss (pre ++ tgr :: post) tds log
    = ((tds ++ out)%list, Some (noSuitableTileSet (tgrGlobalID tgr)),
       (log ++ scansOf (pre ++ [tgr]))%list)
    /\ Forall2 (cellDef tss) pre out.
Proof.
  induction pre as [|p pre IH]; intros tgr post tds log Hok Hbad.
  - exists []. cbn [app]. rewrite (resolve_step_fail _ _ _ _ _ Hbad).
    rewrite app_nil_r. auto.
  - inversion Hok as [|? ? Hp Hrest]; subst.
    destruct (cellOk_cellDef _ _ Hp) as [td Htd].
    cbn [app]. rewrite (resolve_step_ok _ _ _ _ _ _ Htd).
    destruct (IH tgr post (tds ++ [td])%list (log ++ scansOf [p])%list
                 Hrest Hbad) as (out & -> & Hout).
    exists (td :: out). rewrite <- !app_assoc.
    change (p :: (pre ++ [tgr])%list) with ([p] ++ (pre ++ [tgr]))%list.
    rewrite (scansOf_app [p]).
    split; [reflexivity | constructor; assumption].
Qed.

(** A list all of whose elements are good, or the first bad one. *)
Lemma first_bad_split {A : Type} (P : A -> Prop)
      (dec : forall x, P x \/ ~ P x) (l : list A) :
  Forall P l
  \/ exists pre x post, l = (pre ++ x :: post)%list /\ Forall P pre /\ ~ P x.
Proof.
  induction l as [|x l IH]; [left; constructor|].
  destruct (dec x) as [Hx|Hx].
  - destruct IH as [Hall | (pre & y & post & -> & Hpre & Hy)].
    + left. constructor; assumption.
    + right. exists (x :: pre), y, post. repeat split; auto.
  - right. exists [], x, l. repeat split; auto.
Qed.

Lemma cellOk_dec (tss : list TileSet) (tgr : TileGlobalRef) :
  cellOk tss tgr \/ ~ cellOk tss tgr.
Proof.
  unfold cellOk. destruct (tileDefFor tss (tgrGlobalID tgr));
    [left; discriminate | right; intros H; apply H; reflexivity].
Qed.

Lemma scansOf_events (tgrs : list TileGlobalRef) (e : event) :
  In e (scansOf tgrs) ->
  exists g, e = ScanTileSets g /\ GlobalID.BareID g <> 0.
Proof.
  induction tgrs as [|tgr tgrs IH]; cbn [scansOf]; [intros []|].
  destruct (Z.eqb_spec (GlobalID.BareID (tgrGlobalID tgr)) 0); [exact IH|].
  intros [<-|H]; [eauto | exact (IH H)].
Qed.

Lemma not_cellOk (tss : list TileSet) (tgr : TileGlobalRef) :
  ~ cellOk tss tgr -> tileDefFor tss (tgrGlobalID tgr) = None.
Proof.
  unfold cellOk. intros H.
  destruct (tileDefFor tss (tgrGlobalID tgr)); [|reflexivity].
  exfalso. apply H. discriminate.
Qed.

(** The loop only adds scans to the log. *)
Lemma resolve_log (tss : list TileSet) (tgrs : list TileGlobalRef)
      (tds : list TileDef) (log : list event) :
  exists done, snd (Layer.resolve tss tgrs tds log) = (log ++ scansOf done)%list.
Proof.
  destruct (first_bad_split (cellOk tss) (cellOk_dec tss) tgrs)
    as [Hall | (pre & tgr & post & -> & Hpre & Hbad)].
  - destruct (resolve_all tss tgrs tds log Hall) as (out & -> & _).
    eexists. reflexivity.
  - destruct (resolve_first_bad tss pre tgr post tds log Hpre
                (not_cellOk _ _ Hbad)) as (out & -> & _).
    eexists. reflexivity.
Qed.

Lemma Forall2_nth_error {A B : Type} (R : A -> B -> Prop)
      (la : list A) (lb : list B) :
  Forall2 R la lb ->
  forall k a, nth_error la k = Some a ->
  exists b, nth_error lb k = Some b /\ R a b.
Proof.
  induction 1 as [|x y la lb Hxy _ IH]; intros [|k] a Hk; cbn in *;
    try discriminate.
  - injection Hk as <-. eauto.
  - apply IH, Hk.
Qed.

Lemma nonempty_true {A : Type} (s : list A) : s <> [] -> nonempty s = true.
Proof. destruct s; [contradiction | reflexivity]. Qed.

(** ** The two accessors of a layer *)

Section Pipeline.

Variables readBase64 readZlib readGzip : list byte -> list byte * option error.
Variable sortTileSets : list TileSet -> list TileSet.

Local Notation "'refsOf'" :=
  (Layer.TileGlobalRefs readBase64 readZlib readGzip).
Local Notation "'defsOf'" :=
  (Layer.TileDefs readBase64 readZlib readGzip sortTileSets).

Ltac run_refs l :=
  unfold Layer.TileGlobalRefs;
  destruct (nonempty (dataTileGlobalRefs (RawData l))) eqn:Hdata;
  [|destruct (nonempty (tileGlobalRefs l)) eqn:Hcache;
    [|destruct (Data.Bytes readBase64 readZlib readGzip (RawData l))
        as [bytes [ebytes|]];
      [|destruct (String.eqb (Encoding (RawData l)) "base64");
        [destruct (decodeB64LayerData bytes) as [uis [edec|]]
        |destruct (String.eqb (Encoding (RawData l)) "csv");
         [destruct (decodeCSVLayerData bytes) as [uis [edec|]]|]]]]];
  cbn [refs refsErr refsLayer refsLog RawData tileDefs tileGlobalRefs].

Lemma TileGlobalRefs_structured (l : Layer) :
  dataTileGlobalRefs (RawData l) <> [] ->
  refsOf l = mkRefsResult (dataTileGlobalRefs (RawData l)) None l [].
Proof.
  intros H. unfold Layer.TileGlobalRefs.
  rewrite (nonempty_true _ H). reflexivity.
Qed.

(** A call keeps the payload and the cached definitions of the layer. *)
Lemma TileGlobalRefs_frame (l : Layer) :
  RawData (refsLayer (refsOf l)) = RawData l
  /\ tileDefs (refsLayer (refsOf l)) = tileDefs l.
Proof. run_refs l; auto. Qed.

(** A failed call changes nothing and returns no references. *)
Lemma TileGlobalRefs_failed (l : Layer) (e : error) :
  refsErr (refsOf l) = Some e ->
  refsLayer (refsOf l) = l /\ refs (refsOf l) = [].
Proof. run_refs l; intros H; try discriminate; auto. Qed.

(** The log of a call holds no scan. *)
Lemma TileGlobalRefs_log (l : Layer) (e : event) :
  In e (refsLog (refsOf l)) ->
  e = CallBytes \/ e = CallDecodeB64 \/ e = CallDecodeCSV.
Proof. run_refs l; cbn; intuition. Qed.

(** After a call that returned references, any later call, with whatever
    readers, returns them from the layer. *)
Lemma TileGlobalRefs_again (l : Layer) :
  refsErr (refsOf l) = None ->
  refs (refsOf l) <> [] ->
  forall rb rz rg,
    Layer.TileGlobalRefs rb rz rg (refsLayer (refsOf l))
    = mkRefsResult (refs (refsOf l)) None
                   (refsLayer (refsOf l)) [].
Proof.
  run_refs l; intros Herr Hrefs rb rz rg; try discriminate;
    try contradiction; unfold Layer.TileGlobalRefs;
    cbn [RawData tileGlobalRefs tileDefs].
  - rewrite Hdata. reflexivity.
  - rewrite Hdata, Hcache. reflexivity.
  - rewrite Hdata, (nonempty_true _ Hrefs). reflexivity.
  - rewrite Hdata, (nonempty_true _ Hrefs). reflexivity.
Qed.

(** The two outcomes of [TileDefs] on a layer without cached definitions,
    in terms of the cells over the sorted tile-sets. *)
Lemma TileDefs_all (l : Layer) (tss : list TileSet) :
  tileDefs l = [] ->
  refsErr (refsOf l) = None ->
  Forall (cellOk (sortTileSets tss)) (refs (refsOf l)) ->
  exists out,
    defsOf l tss
    = mkDefsResult out None
        (mkLayer (RawData l) (tileGlobalRefs (refsLayer (refsOf l)))
                 out)
        (sortTileSets tss)
        (refsLog (refsOf l) ++ [CallSort]
         ++ scansOf (refs (refsOf l)))
    /\ Forall2 (cellDef (sortTileSets tss)) (refs (refsOf l)) out.
Proof.
  intros Hcache Herr Hok. unfold Layer.TileDefs.
  rewrite Hcache, Herr. cbn [nonempty].
  destruct (resolve_all _ _ [] (refsLog (refsOf l) ++ [CallSort])
                        Hok) as (out & -> & Hout).
  exists out. cbn [app]. rewrite <- app_assoc.
  destruct (TileGlobalRefs_frame l) as [-> _]. auto.
Qed.

Lemma TileDefs_first_bad (l : Layer) (tss : list TileSet)
      (pre : list TileGlobalRef) (tgr : TileGlobalRef)
      (post : list TileGlobalRef) :
  tileDefs l = [] ->
  refsErr (refsOf l) = None ->
  refs (refsOf l) = (pre ++ tgr :: post)%list ->
  Forall (cellOk (sortTileSets tss)) pre ->
  tileDefFor (sortTileSets tss) (tgrGlobalID tgr) = None ->
  exists out,
    defsOf l tss
    = mkDefsResult out (Some (noSuitableTileSet (tgrGlobalID tgr)))
        (refsLayer (refsOf l)) (sortTileSets tss)
        (refsLog (refsOf l) ++ [CallSort]
         ++ scansOf (pre ++ [tgr]))
    /\ Forall2 (cellDef (sortTileSets tss)) pre out.
Proof.
  intros Hcache Herr Hrefs Hok Hbad. unfold Layer.TileDefs.
  rewrite Hcache, Herr, Hrefs. cbn [nonempty].
  destruct (resolve_first_bad _ pre tgr post []
              (refsLog (refsOf l) ++ [CallSort]) Hok Hbad)
    as (out & -> & Hout).
  exists out. cbn [app]. rewrite <- app_assoc. auto.
Qed.

(** A successful call on a layer without cached definitions resolved every
    cell. *)
Lemma TileDefs_success (l : Layer) (tss : list TileSet) :
  tileDefs l = [] ->
  defsErr (defsOf l tss) = None ->
  refsErr (refsOf l) = None
  /\ Forall (cellOk (sortTileSets tss)) (refs (refsOf l)).
Proof.
  intros Hcache Herr.
  assert (Hrefs : refsErr (refsOf l) = None).
  { unfold Layer.TileDefs in Herr. rewrite Hcache in Herr.
    cbn [nonempty] in Herr.
    destruct (refsErr (refsOf l)); [discriminate | reflexivity]. }
  split; [exact Hrefs|].
  destruct (first_bad_split _ (cellOk_dec (sortTileSets tss))
              (refs (refsOf l)))
    as [Hall | (pre & tgr & post & Heq & Hpre & Hbad)]; [exact Hall|].
  destruct (TileDefs_first_bad l tss pre tgr post Hcache Hrefs Heq Hpre
              (not_cellOk _ _ Hbad)) as (out & Hdefs & _).
  rewrite Hdefs in Herr. discriminate.
Qed.

Lemma TileDefs_log (l : Layer) (tss : list TileSet) :
  tileDefs l = [] ->
  refsErr (refsOf l) = None ->
  exists done,
    defsLog (defsOf l tss)
    = (refsLog (refsOf l) ++ [CallSort] ++ scansOf done)%list.
Proof.
  intros Hcache Herr. unfold Layer.TileDefs.
  rewrite Hcache, Herr. cbn [nonempty].
  destruct (resolve_log (sortTileSets tss) (refs (refsOf l)) []
              (refsLog (refsOf l) ++ [CallSort])) as [done Hlog].
  exists done. rewrite <- app_assoc in Hlog.
  destruct (Layer.resolve _ _ _ _) as [[tds [e|]] log];
    cbn [snd] in Hlog; subst log; reflexivity.
Qed.

(** C7. A layer with a non-empty structured reference list: the call
    returns that list as it is, with no error, leaves the layer as it was
    and logs no call, so neither [Bytes] nor a payload decoder runs.  The
    layer is arbitrary otherwise: its encoding and compression tags, its
    raw bytes and its caches play no part.  [TileDefs] on such a layer
    does not reach the payload either: its log holds no call of [Bytes] or
    of a decoder. *)
Theorem structured_refs_verbatim (l : Layer) (tss : list TileSet) :
  dataTileGlobalRefs (RawData l) <> [] ->
  refsOf l = mkRefsResult (dataTileGlobalRefs (RawData l)) None l []
  /\ forall e, In e (defsLog (defsOf l tss)) ->
               e <> CallBytes /\ e <> CallDecodeB64 /\ e <> CallDecodeCSV.
Proof.
  intros H. pose proof (TileGlobalRefs_structured l H) as Hrefs.
  split; [exact Hrefs|]. intros e He.
  destruct (tileDefs l) as [|td tds] eqn:Hcache.
  - destruct (TileDefs_log l tss Hcache) as [done Hlog];
      [rewrite Hrefs; reflexivity|].
    rewrite Hlog, Hrefs in He. cbn [refsLog app] in He.
    destruct He as [<-|He]; [repeat split; discriminate|].
    apply scansOf_events in He as (g & -> & _). repeat split; discriminate.
  - unfold Layer.TileDefs in He. rewrite Hcache in He. destruct He.
Qed.


(** C5. A cell whose bare id is 0, whatever its flip bits.
    - The eight global ids made of flip bits alone have bare id 0.
    - The loop appends the definition with [Nil] set and every other field
      at its zero value (no tile id, no global id, no tile-set, no tile,
      no flip flag) and goes on to the next cell, with the log unchanged:
      the tile-sets are not scanned for it.
    - In the result of a successful [TileDefs] on a layer without cached
      definitions there is one definition for every reference, and the one
      at the place of such a cell is that definition.
    - No log of [TileDefs] holds a scan for a global id of bare id 0.
    - A layer whose cells all have bare id 0 resolves over any tile-sets,
      also over none. *)
Theorem empty_cell_is_nil (l : Layer) (tss : list TileSet) :
  (forall h v d : bool,
     GlobalID.BareID
       (Z.lor (Z.lor (if h then TileFlippedHorizontally else 0)
                     (if v then TileFlippedVertically else 0))
              (if d then TileFlippedDiagonally else 0)) = 0)
  /\ (forall tss' g rest tds log,
     GlobalID.BareID g = 0 ->
     Layer.resolve tss' (mkTileGlobalRef g :: rest) tds log
     = Layer.resolve tss' rest
         (tds ++ [mkTileDef true 0 0 None None false false false]) log)
  /\ (tileDefs l = [] -> defsErr (defsOf l tss) = None ->
      List.length (defs (defsOf l tss)) = List.length (refs (refsOf l))
      /\ forall k tgr,
           nth_error (refs (refsOf l)) k = Some tgr ->
           GlobalID.BareID (tgrGlobalID tgr) = 0 ->
           nth_error (defs (defsOf l tss)) k
           = Some (mkTileDef true 0 0 None None false false false))
  /\ (forall g, GlobalID.BareID g = 0 ->
                ~ In (ScanTileSets g) (defsLog (defsOf l tss)))
  /\ (tileDefs l = [] -> refsErr (refsOf l) = None ->
      Forall (fun tgr => GlobalID.BareID (tgrGlobalID tgr) = 0)
             (refs (refsOf l)) ->
      defsErr (defsOf l tss) = None
      /\ defs (defsOf l tss)
         = map (fun _ => mkTileDef true 0 0 None None false false false)
               (refs (refsOf l))).
Proof.
  split; [intros [|] [|] [|]; reflexivity|].
  split; [|split; [|split]].
  - intros tss' g rest tds log Hg. cbn [Layer.resolve tgrGlobalID].
    rewrite Hg. reflexivity.
  - intros Hcache Herr.
    destruct (TileDefs_success l tss Hcache Herr) as [Hrefs Hok].
    destruct (TileDefs_all l tss Hcache Hrefs Hok) as (out & -> & Hout).
    cbn [defs]. split.
    + symmetry. apply (Forall2_length Hout).
    + intros k tgr Hk Hzero.
      destruct (Forall2_nth_error _ _ _ Hout k tgr Hk) as (td & Htd & Hdef).
      unfold cellDef in Hdef. rewrite (tileDefFor_zero _ _ Hzero) in Hdef.
      injection Hdef as <-. exact Htd.
  - intros g Hg Hin.
    destruct (tileDefs l) as [|td tds] eqn:Hcache.
    + destruct (refsErr (refsOf l)) as [e|] eqn:Herr.
      * unfold Layer.TileDefs in Hin. rewrite Hcache, Herr in Hin.
        cbn [nonempty defsLog] in Hin.
        apply TileGlobalRefs_log in Hin as [H|[H|H]]; discriminate.
      * destruct (TileDefs_log l tss Hcache Herr) as [done Hlog].
        rewrite Hlog in Hin. apply in_app_or in Hin as [Hin|Hin].
        { apply TileGlobalRefs_log in Hin as [H|[H|H]]; discriminate. }
        destruct Hin as [H|Hin]; [discriminate|].
        apply scansOf_events in Hin as (g' & Heq & Hne).
        injection Heq as <-. contradiction.
    + unfold Layer.TileDefs in Hin. rewrite Hcache in Hin. destruct Hin.
  - intros Hcache Hrefs Hzero.
    assert (Hok : Forall (cellOk (sortTileSets tss)) (refs (refsOf l))).
    { eapply Forall_impl; [|exact Hzero]. intros tgr Hz. unfold cellOk.
      rewrite (tileDefFor_zero _ _ Hz). discriminate. }
    destruct (TileDefs_all l tss Hcache Hrefs Hok) as (out & -> & Hout).
    cbn [defs defsErr]. split; [reflexivity|].
    revert Hzero Hout. generalize (refs (refsOf l)). clear.
    intros tgrs Hzero Hout. induction Hout as [|tgr td tgrs out Hd _ IH];
      [reflexivity|].
    inversion Hzero as [|? ? Hz Hrest]; subst. cbn [map].
    unfold cellDef in Hd. rewrite (tileDefFor_zero _ _ Hz) in Hd.
    injection Hd as <-. f_equal. apply IH, Hrest.
Qed.

(** From here on the sort is what [sort.Sort] promises: it permutes the
    slice, and afterwards no tile-set is [Less] than the one before it. *)
Hypothesis sort_permutes : forall tss, Permutation tss (sortTileSets tss).
Hypothesis sort_sorts :
  forall tss, Sorted byFirstGlobalID.ascending (sortTileSets tss).

Lemma unresolvable_iff (tss : list TileSet) (tgr : TileGlobalRef) :
  tileDefFor (sortTileSets tss) (tgrGlobalID tgr) = None
  <-> unresolvable tss tgr.
Proof.
  unfold unresolvable. split.
  - intros H. apply tileDefFor_None in H as [Hne Hscan].
    split; [exact Hne|]. intros t Ht.
    pose proof (scan_sorted (GlobalID.BareID (tgrGlobalID tgr)) _
                  (sort_sorts tss)) as Hs.
    rewrite Hscan in Hs. apply Hs.
    apply (Permutation_in _ (sort_permutes tss)), Ht.
  - intros [Hne Habove]. unfold tileDefFor.
    destruct (Z.eqb_spec (GlobalID.BareID (tgrGlobalID tgr)) 0);
      [contradiction|].
    rewrite scan_None_above; [reflexivity|]. intros t Ht. apply Habove.
    apply (Permutation_in _ (Permutation_sym (sort_permutes tss))), Ht.
Qed.

Lemma resolvable_cellOk (tss : list TileSet) (tgrs : list TileGlobalRef) :
  Forall (fun tgr => ~ unresolvable tss tgr) tgrs ->
  Forall (cellOk (sortTileSets tss)) tgrs.
Proof.
  apply Forall_impl. intros tgr H. unfold cellOk.
  rewrite unresolvable_iff. exact H.
Qed.

Lemma unresolvable_dec (tss : list TileSet) (tgr : TileGlobalRef) :
  ~ unresolvable tss tgr \/ ~ ~ unresolvable tss tgr.
Proof.
  rewrite <- unresolvable_iff.
  destruct (tileDefFor (sortTileSets tss) (tgrGlobalID tgr));
    [left; discriminate | right; intros H; apply H; reflexivity].
Qed.

(** Among the cells without a tile-set there is a first one. *)
Lemma first_unresolvable (tss : list TileSet) (tgrs : list TileGlobalRef)
      (tgr : TileGlobalRef) :
  In tgr tgrs -> unresolvable tss tgr ->
  exists pre bad post,
    tgrs = (pre ++ bad :: post)%list
    /\ Forall (fun c => ~ unresolvable tss c) pre
    /\ unresolvable tss bad.
Proof.
  intros Hin Hbad.
  destruct (first_bad_split _ (unresolvable_dec tss) tgrs)
    as [Hall | (pre & bad & post & Heq & Hpre & Hnn)].
  - rewrite Forall_forall in Hall. destruct (Hall tgr Hin Hbad).
  - exists pre, bad, post. split; [exact Heq|]. split; [exact Hpre|].
    destruct (tileDefFor (sortTileSets tss) (tgrGlobalID bad)) eqn:E.
    + exfalso. apply Hnn. rewrite <- unresolvable_iff, E. discriminate.
    + apply unresolvable_iff, E.
Qed.

(** C1. The scan of the tile-sets.
    - Over tile-sets in ascending order of first global id the scan returns
      a pointer to the last tile-set whose first global id is at most the
      bare id: its index [i] and the tile-set there, and every tile-set at
      most the bare id sits at an index up to [i].  It returns [nil]
      exactly when every first global id is above the bare id, as for no
      tile-sets at all.  (This holds of every bare id, 0 too.)
    - The scan stops at the first tile-set above the bare id: what comes
      after it does not change the result.
    - In [TileDefs], which sorts first: when a cell of non-zero bare id
      has no tile-set at or below it, and every cell before it had one or
      was empty, the call fails with the error of main.go, line 385, for
      the global id of that cell.  So whenever some cell has no tile-set
      the call fails with that error for one such cell. *)
Theorem tile_set_scan (l : Layer) (tss : list TileSet) :
  (forall sorted bid,
     Sorted byFirstGlobalID.ascending sorted ->
     match Layer.scan sorted bid with
     | Some (i, ts) =>
         nth_error sorted i = Some ts
         /\ FirstGlobalID ts <= bid
         /\ forall j t, nth_error sorted j = Some t ->
                        FirstGlobalID t <= bid -> (j <= i)%nat
     | None => forall t, In t sorted -> bid < FirstGlobalID t
     end)
  /\ (forall bid, (forall t, In t tss -> bid < FirstGlobalID t) ->
                  Layer.scan tss bid = None)
  /\ (forall pre t post bid,
        bid < FirstGlobalID t ->
        Layer.scan (pre ++ t :: post) bid = Layer.scan pre bid)
  /\ (forall pre tgr post,
        tileDefs l = [] ->
        refsErr (refsOf l) = None ->
        refs (refsOf l) = (pre ++ tgr :: post)%list ->
        Forall (fun c => ~ unresolvable tss c) pre ->
        unresolvable tss tgr ->
        defsErr (defsOf l tss)
        = Some (Errorf ("no suitable tileset found for tile with global ID "
                        ++ fmtInt (tgrGlobalID tgr)
                        ++ "; the file is invalid")))
  /\ (forall tgr,
        tileDefs l = [] ->
        refsErr (refsOf l) = None ->
        In tgr (refs (refsOf l)) ->
        unresolvable tss tgr ->
        exists bad,
          In bad (refs (refsOf l)) /\ unresolvable tss bad
          /\ defsErr (defsOf l tss)
             = Some (Errorf
                       ("no suitable tileset found for tile with global ID "
                        ++ fmtInt (tgrGlobalID bad)
                        ++ "; the file is invalid"))).
Proof.
  split; [intros sorted bid Hs; apply scan_sorted, Hs|].
  split; [intros bid; apply scan_None_above|].
  split; [intros pre t post bid Ht; apply scanFrom_stops, Ht|].
  assert (Hfirst : forall pre tgr post,
            tileDefs l = [] -> refsErr (refsOf l) = None ->
            refs (refsOf l) = (pre ++ tgr :: post)%list ->
            Forall (fun c => ~ unresolvable tss c) pre ->
            unresolvable tss tgr ->
            defsErr (defsOf l tss)
            = Some (noSuitableTileSet (tgrGlobalID tgr))).
  { intros pre tgr post Hcache Herr Hrefs Hpre Hbad.
    apply resolvable_cellOk in Hpre. apply unresolvable_iff in Hbad.
    destruct (TileDefs_first_bad l tss pre tgr post Hcache Herr Hrefs Hpre
                Hbad) as (out & -> & _).
    reflexivity. }
  split; [exact Hfirst|].
  intros tgr Hcache Herr Hin Hbad.
  destruct (first_unresolvable tss _ tgr Hin Hbad)
    as (pre & bad & post & Heq & Hpre & Hb).
  exists bad. split; [rewrite Heq; apply in_elt|]. split; [exact Hb|].
  apply (Hfirst pre bad post Hcache Herr Heq Hpre Hb).
Qed.


End Pipeline.

(** ** The instances *)

Lemma insert_permutes (t : TileSet) (tss : list TileSet) :
  Permutation (t :: tss) (Instances.insert t tss).
Proof.
  induction tss as [|u tss IH]; cbn [Instances.insert]; [reflexivity|].
  destruct (byFirstGlobalID.Less t u); [reflexivity|].
  rewrite perm_swap. apply perm_skip, IH.
Qed.

Lemma sortTileSets_permutes (tss : list TileSet) :
  Permutation tss (Instances.sortTileSets tss).
Proof.
  induction tss as [|t tss IH]; cbn [Instances.sortTileSets]; [reflexivity|].
  rewrite <- insert_permutes. apply perm_skip, IH.
Qed.

Lemma insert_sorts (t : TileSet) (tss : list TileSet) :
  Sorted byFirstGlobalID.ascending tss ->
  Sorted byFirstGlobalID.ascending (Instances.insert t tss).
Proof.
  induction 1 as [|u tss Htss IH Hhd]; cbn [Instances.insert].
  - repeat constructor.
  - destruct (byFirstGlobalID.Less t u) eqn:Hlt.
    + constructor; [constructor; assumption|]. constructor.
      apply ascending_le. unfold byFirstGlobalID.Less in Hlt. lia.
    + constructor; [exact IH|].
      destruct tss as [|v tss]; cbn [Instances.insert].
      * constructor. exact Hlt.
      * destruct (byFirstGlobalID.Less t v); constructor;
          [exact Hlt | inversion Hhd; assumption].
Qed.

Lemma sortTileSets_sorts (tss : list TileSet) :
  Sorted byFirstGlobalID.ascending (Instances.sortTileSets tss).
Proof.
  induction tss as [|t tss IH]; cbn [Instances.sortTileSets];
    [constructor | apply insert_sorts, IH].
Qed.

(** ** Concrete layers *)

Import Examples.

(** C7 at a layer with the structured references 5 and 0x80000064, whose
    encoding is ["bogus"] and whose compression is ["lz4"]. *)
Lemma structured_refs_verbatim_witness :
  Instances.TileGlobalRefs twoRefs
  = mkRefsResult [mkTileGlobalRef 5; mkTileGlobalRef 0x80000064] None
                 twoRefs [].
Proof.
  apply (structured_refs_verbatim
           Instances.readBase64 Instances.readNone Instances.readNone
           Instances.sortTileSets twoRefs [A; B; C]).
  discriminate.
Defined.



(** C5 at the structured layer [0xE0000000; 0; 0x40000000] over no
    tile-sets: three nil definitions and no error. *)
Lemma empty_cell_is_nil_witness :
  defsErr (Instances.TileDefs flippedNothing []) = None
  /\ defs (Instances.TileDefs flippedNothing [])
     = [nilTileDef; nilTileDef; nilTileDef]
  /\ nth_error (defs (Instances.TileDefs flippedNothing [])) 0
     = Some (mkTileDef true 0 0 None None false false false).
Proof.
  destruct (empty_cell_is_nil
              Instances.readBase64 Instances.readNone Instances.readNone
              Instances.sortTileSets flippedNothing [])
    as (_ & _ & Hnth & _ & Hall).
  destruct Hall as [Herr Hdefs]; [reflexivity | reflexivity | |].
  { repeat (constructor; [reflexivity|]). constructor. }
  split; [exact Herr|]. split; [exact Hdefs|].
  destruct (Hnth eq_refl Herr) as [_ H].
  apply (H 0%nat (mkTileGlobalRef 0xE0000000)); reflexivity.
Defined.

Lemma strayCell_unresolvable : unresolvable [B] (mkTileGlobalRef 5).
Proof. split; [discriminate|]. intros t [<-|[]]. reflexivity. Qed.

Lemma strayCell_before :
  Forall (fun c => ~ unresolvable [B] c) [mkTileGlobalRef 100].
Proof.
  constructor; [|constructor]. intros [_ H].
  specialize (H B (or_introl eq_refl)). cbn in H. lia.
Qed.

(** C1 at the tile-sets A@1, B@100, C@250: 249 is owned by B, at index 1;
    and at the csv layer ["100,5,0"] over B alone, where cell 5 has no
    tile-set. *)
Lemma tile_set_scan_witness :
  (exists ts, Layer.scan [A; B; C] 249 = Some (1%nat, ts) /\ Name ts = "B")
  /\ defsErr (Instances.TileDefs strayCell [B])
     = Some (Errorf
               "no suitable tileset found for tile with global ID 5; the file is invalid").
Proof.
  destruct (tile_set_scan
              Instances.readBase64 Instances.readNone Instances.readNone
              Instances.sortTileSets sortTileSets_permutes sortTileSets_sorts
              strayCell [B]) as (Hscan & _ & _ & Hfail & _).
  split.
  - assert (Hs : Sorted byFirstGlobalID.ascending [A; B; C])
      by (repeat constructor).
    specialize (Hscan [A; B; C] 249 Hs).
    destruct (Layer.scan [A; B; C] 249) as [[i ts]|] eqn:E;
      [|discriminate E].
    injection E as <- <-. exists B. split; reflexivity.
  - apply (Hfail [mkTileGlobalRef 100] (mkTileGlobalRef 5)
                 [mkTileGlobalRef 0] eq_refl eq_refl eq_refl
                 strayCell_before strayCell_unresolvable).
Defined.



(** * Further properties of the package *)

(** ** Lookups *)

Lemma firstIndexFrom_found {A : Type} (p : A -> bool) (s : list A) :
  forall i j,
  firstIndexFrom p s i = Some j ->
  exists k a,
    j = (i + k)%nat /\ nth_error s k = Some a /\ p a = true
    /\ forall k' a', (k' < k)%nat -> nth_error s k' = Some a' -> p a' = false.
Proof.
  induction s as [|a s IH]; intros i j H; cbn [firstIndexFrom] in H;
    [discriminate|].
  destruct (p a) eqn:Hp.
  - injection H as <-. exists 0%nat, a. rewrite Nat.add_0_r.
    split; [reflexivity|]. split; [reflexivity|]. split; [exact Hp|].
    intros k' a' Hk. lia.
  - destruct (IH _ _ H) as (k & b & -> & Hnth & Hb & Hfirst).
    exists (S k), b. split; [lia|]. split; [exact Hnth|].
    split; [exact Hb|].
    intros [|k'] a' Hk Hk'; cbn in Hk'.
    + injection Hk' as <-. exact Hp.
    + apply (Hfirst k' a'); [lia | exact Hk'].
Qed.

Lemma firstIndexFrom_none {A : Type} (p : A -> bool) (s : list A) :
  forall i,
  firstIndexFrom p s i = None <-> forall a, In a s -> p a = false.
Proof.
  induction s as [|a s IH]; intros i; cbn [firstIndexFrom].
  - split; [intros _ a [] | reflexivity].
  - destruct (p a) eqn:Hp.
    + split; [discriminate|]. intros H.
      rewrite (H a (or_introl eq_refl)) in Hp. discriminate.
    + rewrite IH. split.
      * intros H b [<-|Hb]; auto.
      * intros H b Hb. apply H. right. exact Hb.
Qed.

Lemma firstCopy_found {A : Type} (p : A -> bool) (s : list A) (a : A) :
  firstCopy p s = Some a ->
  exists pre post,
    s = (pre ++ a :: post)%list /\ p a = true
    /\ forall b, In b pre -> p b = false.
Proof.
  induction s as [|b s IH]; cbn [firstCopy]; [discriminate|].
  destruct (p b) eqn:Hp.
  - intros H. injection H as <-. exists [], s. repeat split; auto.
    intros c [].
  - intros H. destruct (IH H) as (pre & post & -> & Ha & Hpre).
    exists (b :: pre), post. repeat split; auto.
    intros c [<-|Hc]; auto.
Qed.

Lemma firstCopy_skips {A : Type} (p : A -> bool) (pre : list A) :
  forall s, (forall b, In b pre -> p b = false) ->
  firstCopy p (pre ++ s) = firstCopy p s.
Proof.
  induction pre as [|b pre IH]; intros s H; [reflexivity|].
  cbn [firstCopy app]. rewrite (H b (or_introl eq_refl)).
  apply IH. intros c Hc. apply H. right. exact Hc.
Qed.

Lemma firstCopy_none {A : Type} (p : A -> bool) (s : list A) :
  firstCopy p s = None <-> forall a, In a s -> p a = false.
Proof.
  split.
  - intros H a Ha. destruct (p a) eqn:Hp; [|reflexivity].
    apply in_split in Ha as (pre & post & ->).
    induction pre as [|b pre IH]; cbn [firstCopy app] in H.
    + rewrite Hp in H. discriminate.
    + destruct (p b); [discriminate | exact (IH H)].
  - intros H. rewrite <- (app_nil_r s), firstCopy_skips by exact H.
    reflexivity.
Qed.

Lemma tileWithIDFrom_firstIndex (tiles : list Tile) (id : TileID) :
  forall i,
  TileSet.tileWithIDFrom tiles id i
  = firstIndexFrom (fun t => tileTileID t =? id) tiles i.
Proof.
  induction tiles as [|t tiles IH]; intros i; [reflexivity|].
  cbn [TileSet.tileWithIDFrom firstIndexFrom]. rewrite IH. reflexivity.
Qed.

(** X1. [TileWithID] returns a pointer to the first tile of the tile-set
    that carries the id: no tile before it does; and it returns [nil]
    exactly when no tile of the tile-set carries the id. *)
Theorem TileWithID_first (t : TileSet) (id : TileID) :
  match TileSet.TileWithID t id with
  | Some i =>
      exists tile,
        nth_error (Tiles t) i = Some tile /\ tileTileID tile = id
        /\ forall j other, (j < i)%nat -> nth_error (Tiles t) j = Some other ->
                           tileTileID other <> id
  | None => forall tile, In tile (Tiles t) -> tileTileID tile <> id
  end.
Proof.
  unfold TileSet.TileWithID. rewrite tileWithIDFrom_firstIndex.
  destruct (firstIndexFrom _ (Tiles t) 0) as [i|] eqn:E.
  - apply firstIndexFrom_found in E as (k & tile & -> & Hnth & Hid & Hfirst).
    exists tile. cbn [Nat.add]. split; [exact Hnth|].
    split; [cbn in Hid; lia|].
    intros j other Hj Hother. specialize (Hfirst j other Hj Hother).
    cbn in Hfirst. lia.
  - intros tile Hin. rewrite firstIndexFrom_none in E.
    specialize (E tile Hin). cbn in E. lia.
Qed.

(** X2. [TileSetWithName] and [ObjectGroupWithName] return a pointer to the
    first element of the map's slice with that name, and [nil] exactly when
    no element has it. *)
Theorem Map_lookup_first (m : Map) (name : string) :
  match Map.TileSetWithName m name with
  | Some i =>
      exists t,
        nth_error (TileSets m) i = Some t /\ Name t = name
        /\ forall j other, (j < i)%nat -> nth_error (TileSets m) j = Some other ->
                           Name other <> name
  | None => forall t, In t (TileSets m) -> Name t <> name
  end
  /\ match Map.ObjectGroupWithName m name with
     | Some i =>
         exists g,
           nth_error (ObjectGroups m) i = Some g /\ groupName g = name
           /\ forall j other, (j < i)%nat ->
                nth_error (ObjectGroups m) j = Some other ->
                groupName other <> name
     | None => forall g, In g (ObjectGroups m) -> groupName g <> name
     end.
Proof.
  unfold Map.TileSetWithName, Map.ObjectGroupWithName. split.
  - destruct (firstIndexFrom _ (TileSets m) 0) as [i|] eqn:E.
    + apply firstIndexFrom_found in E as (k & t & -> & Hnth & Hn & Hfirst).
      exists t. cbn [Nat.add]. split; [exact Hnth|].
      split; [apply String.eqb_eq, Hn|].
      intros j other Hj Hother. apply String.eqb_neq.
      exact (Hfirst j other Hj Hother).
    + intros t Hin. rewrite firstIndexFrom_none in E.
      apply String.eqb_neq. exact (E t Hin).
  - destruct (firstIndexFrom _ (ObjectGroups m) 0) as [i|] eqn:E.
    + apply firstIndexFrom_found in E as (k & g & -> & Hnth & Hn & Hfirst).
      exists g. cbn [Nat.add]. split; [exact Hnth|].
      split; [apply String.eqb_eq, Hn|].
      intros j other Hj Hother. apply String.eqb_neq.
      exact (Hfirst j other Hj Hother).
    + intros g Hin. rewrite firstIndexFrom_none in E.
      apply String.eqb_neq. exact (E g Hin).
Qed.

(** ** Packing and unpacking a global identifier *)

Lemma flag_bits (b : bool) (n k : Z) :
  0 <= n -> 0 <= k ->
  Z.testbit (if b then 2 ^ n else 0) k = b && (n =? k).
Proof.
  intros Hn Hk. destruct b; [apply Z.pow2_bits_eqb, Hn | apply Z.bits_0].
Qed.

Lemma bare_bits_high (bare k : Z) :
  0 <= bare < 2 ^ 29 -> 29 <= k -> Z.testbit bare k = false.
Proof.
  intros Hb Hk. rewrite <- (Z.mod_small bare (2 ^ 29)) by lia.
  apply Z.mod_pow2_bits_high. lia.
Qed.

Lemma packGlobalID_bits (h v d : bool) (bare k : Z) :
  0 <= k ->
  Z.testbit (packGlobalID h v d bare) k
  = (h && (31 =? k)) || (v && (30 =? k)) || (d && (29 =? k))
    || Z.testbit bare k.
Proof.
  intros Hk. unfold packGlobalID, TileFlippedHorizontally,
    TileFlippedVertically, TileFlippedDiagonally.
  change 0x80000000 with (2 ^ 31). change 0x40000000 with (2 ^ 30).
  change 0x20000000 with (2 ^ 29).
  rewrite !Z.lor_spec, !flag_bits by lia. reflexivity.
Qed.

Lemma uint32_of_bits (a : Z) :
  (forall k, 32 <= k -> Z.testbit a k = false) -> 0 <= a -> is_uint32 a.
Proof.
  intros Hhigh Ha. replace a with (a mod 2 ^ 32).
  - apply Z.mod_pos_bound. lia.
  - apply Z.bits_inj'. intros k Hk. destruct (Z.ltb_spec k 32).
    + apply Z.mod_pow2_bits_low. lia.
    + rewrite Z.mod_pow2_bits_high by lia. symmetry. apply Hhigh. lia.
Qed.

(** X3. Packing and unpacking are inverse.  A bare id below 2^29 with any
    three flags set over it is a 32-bit value from which [BareID] and the
    three predicates give back the bare id and the flags; and every 32-bit
    global id is its bare id with its own three flags set over it. *)
Theorem packGlobalID_round_trip :
  (forall h v d bare,
     0 <= bare < 2 ^ 29 ->
     is_uint32 (packGlobalID h v d bare)
     /\ GlobalID.BareID (packGlobalID h v d bare) = bare
     /\ GlobalID.IsFlippedHorizontally (packGlobalID h v d bare) = h
     /\ GlobalID.IsFlippedVertically (packGlobalID h v d bare) = v
     /\ GlobalID.IsFlippedDiagonally (packGlobalID h v d bare) = d)
  /\ (forall g,
        is_uint32 g ->
        packGlobalID (GlobalID.IsFlippedHorizontally g)
                     (GlobalID.IsFlippedVertically g)
                     (GlobalID.IsFlippedDiagonally g)
                     (GlobalID.BareID g) = g).
Proof.
  split.
  - intros h v d bare Hb.
    assert (Hflag : forall n, 29 <= n ->
              Z.testbit (packGlobalID h v d bare) n
              = (h && (31 =? n)) || (v && (30 =? n)) || (d && (29 =? n))).
    { intros n Hn. rewrite packGlobalID_bits by lia.
      rewrite (bare_bits_high bare n Hb Hn). apply orb_false_r. }
    split; [|split; [|split; [|split]]].
    + apply uint32_of_bits.
      * intros k Hk. rewrite Hflag by lia.
        replace (31 =? k) with false by lia.
        replace (30 =? k) with false by lia.
        replace (29 =? k) with false by lia.
        rewrite !andb_false_r. reflexivity.
      * unfold packGlobalID, TileFlippedHorizontally, TileFlippedVertically,
          TileFlippedDiagonally.
        rewrite !Z.lor_nonneg. destruct h, v, d; lia.
    + apply Z.bits_inj'. intros k Hk. rewrite BareID_bits by lia.
      destruct (Z.ltb_spec k 29).
      * rewrite packGlobalID_bits by lia.
        replace (31 =? k) with false by lia.
        replace (30 =? k) with false by lia.
        replace (29 =? k) with false by lia.
        replace (k =? 31) with false by lia.
        replace (k =? 30) with false by lia.
        replace (k =? 29) with false by lia.
        rewrite !andb_false_r, andb_true_r. reflexivity.
      * rewrite (bare_bits_high bare k Hb) by lia.
        destruct (Z.ltb_spec k 32).
        { assert (k = 29 \/ k = 30 \/ k = 31) as [->|[->| ->]] by lia;
            cbn [Z.eqb orb negb]; apply andb_false_r. }
        { rewrite Hflag by lia.
          replace (31 =? k) with false by lia.
          replace (30 =? k) with false by lia.
          replace (29 =? k) with false by lia.
          rewrite !andb_false_r. reflexivity. }
    + unfold GlobalID.IsFlippedHorizontally, TileFlippedHorizontally.
      change 0x80000000 with (2 ^ 31).
      rewrite land_pow2_testbit, Hflag by lia. cbn. 
      rewrite andb_true_r, !andb_false_r, !orb_false_r. reflexivity.
    + unfold GlobalID.IsFlippedVertically, TileFlippedVertically.
      change 0x40000000 with (2 ^ 30).
      rewrite land_pow2_testbit, Hflag by lia. cbn.
      rewrite andb_true_r, !andb_false_r, !orb_false_r. reflexivity.
    + unfold GlobalID.IsFlippedDiagonally, TileFlippedDiagonally.
      change 0x20000000 with (2 ^ 29).
      rewrite land_pow2_testbit, Hflag by lia. cbn.
      rewrite andb_true_r, !andb_false_r. reflexivity.
  - intros g Hg. apply Z.bits_inj'. intros k Hk.
    rewrite packGlobalID_bits, BareID_bits by lia.
    unfold GlobalID.IsFlippedHorizontally, GlobalID.IsFlippedVertically,
      GlobalID.IsFlippedDiagonally, TileFlippedHorizontally,
      TileFlippedVertically, TileFlippedDiagonally.
    change 0x80000000 with (2 ^ 31). change 0x40000000 with (2 ^ 30).
    change 0x20000000 with (2 ^ 29).
    rewrite !land_pow2_testbit by lia.
    destruct (Z.eqb_spec k 31) as [->|H31];
      [generalize (Z.testbit g 31), (Z.testbit g 30), (Z.testbit g 29);
       intros [|] [|] [|]; reflexivity|].
    destruct (Z.eqb_spec k 30) as [->|H30];
      [generalize (Z.testbit g 31), (Z.testbit g 30), (Z.testbit g 29);
       intros [|] [|] [|]; reflexivity|].
    destruct (Z.eqb_spec k 29) as [->|H29];
      [generalize (Z.testbit g 31), (Z.testbit g 30), (Z.testbit g 29);
       intros [|] [|] [|]; reflexivity|].
    replace (31 =? k) with false by lia.
    replace (30 =? k) with false by lia.
    replace (29 =? k) with false by lia.
    rewrite !andb_false_r, andb_true_r. reflexivity.
Qed.

(** X3 at bare id 100 with the horizontal and the diagonal flag, which is
    [0xA0000064], and back. *)
Lemma packGlobalID_round_trip_witness :
  packGlobalID true false true 100 = 0xA0000064
  /\ GlobalID.BareID (packGlobalID true false true 100) = 100
  /\ GlobalID.IsFlippedVertically (packGlobalID true false true 100) = false.
Proof.
  destruct packGlobalID_round_trip as [Hpack _].
  destruct (Hpack true false true 100) as (_ & Hb & _ & Hv & _); [lia|].
  split; [reflexivity|]. split; [exact Hb | exact Hv].
Defined.

(** ** Ranges of tile-sets *)

Lemma StronglySorted_nth {A : Type} (R : A -> A -> Prop) (l : list A) :
  StronglySorted R l ->
  forall i j a b, (i < j)%nat ->
  nth_error l i = Some a -> nth_error l j = Some b -> R a b.
Proof.
  induction 1 as [|x l Hl IH Hall]; intros i j a b Hij Hi Hj.
  - destruct i; discriminate.
  - destruct j as [|j]; [lia|]. cbn in Hj. destruct i as [|i]; cbn in Hi.
    + injection Hi as <-. rewrite Forall_forall in Hall.
      apply Hall. apply (nth_error_In _ _ Hj).
    + apply (IH i j); [lia | assumption | assumption].
Qed.

(** X4. Over tile-sets in ascending order of first global id, a tile-set
    owns the bare ids from its first global id up to, and not including,
    the first global id of the tile-set after it; the last tile-set owns
    every bare id from its first global id on.  The scan returns a pointer
    to the owner. *)
Theorem scan_owner (tss : list TileSet) (i : nat) (ts : TileSet) (bid : Z) :
  Sorted byFirstGlobalID.ascending tss ->
  nth_error tss i = Some ts ->
  FirstGlobalID ts <= bid ->
  (forall next, nth_error tss (S i) = Some next -> bid < FirstGlobalID next) ->
  Layer.scan tss bid = Some (i, ts).
Proof.
  intros Hs Hi Hle Hnext.
  pose proof (scan_sorted bid tss Hs) as Hscan.
  apply ascending_StronglySorted in Hs.
  destruct (Layer.scan tss bid) as [[j t]|].
  - destruct Hscan as (Hj & Hjle & Hlast).
    pose proof (Hlast i ts Hi Hle) as Hij.
    destruct (Nat.eq_dec i j) as [->|Hne].
    + rewrite Hi in Hj. injection Hj as <-. reflexivity.
    + exfalso.
      destruct (nth_error tss (S i)) as [next|] eqn:En.
      * specialize (Hnext next eq_refl).
        destruct (Nat.eq_dec (S i) j) as [<-|Hne'].
        { rewrite En in Hj. injection Hj as <-. lia. }
        { pose proof (StronglySorted_nth _ _ Hs (S i) j next t
                        ltac:(lia) En Hj) as Hasc.
          apply ascending_le in Hasc. lia. }
      * apply nth_error_None in En.
        assert (j < List.length tss)%nat
          by (apply nth_error_Some; rewrite Hj; discriminate).
        lia.
  - specialize (Hscan ts (nth_error_In _ _ Hi)). lia.
Qed.

(** X4 at the tile-sets A@1, B@100, C@250: B owns 100 and 249, C owns
    100000. *)
Lemma scan_owner_witness :
  Layer.scan [Examples.A; Examples.B; Examples.C] 100
  = Some (1%nat, Examples.B)
  /\ Layer.scan [Examples.A; Examples.B; Examples.C] 249
     = Some (1%nat, Examples.B)
  /\ Layer.scan [Examples.A; Examples.B; Examples.C] 100000
     = Some (2%nat, Examples.C).
Proof.
  assert (Hs : Sorted byFirstGlobalID.ascending
                 [Examples.A; Examples.B; Examples.C])
    by (repeat constructor).
  split; [|split].
  - apply (scan_owner _ 1%nat Examples.B 100 Hs eq_refl); cbn; [lia|].
    intros next H. injection H as <-. cbn. lia.
  - apply (scan_owner _ 1%nat Examples.B 249 Hs eq_refl); cbn; [lia|].
    intros next H. injection H as <-. cbn. lia.
  - apply (scan_owner _ 2%nat Examples.C 100000 Hs eq_refl); cbn; [lia|].
    intros next H. discriminate H.
Defined.

(** ** What [TileDefs] returns for a cell with a tile *)

Section Resolved.

Variables readBase64 readZlib readGzip : list byte -> list byte * option error.
Variable sortTileSets : list TileSet -> list TileSet.
Hypothesis sort_permutes : forall tss, Permutation tss (sortTileSets tss).
Hypothesis sort_sorts :
  forall tss, Sorted byFirstGlobalID.ascending (sortTileSets tss).

Local Notation "'refsOf'" :=
  (Layer.TileGlobalRefs readBase64 readZlib readGzip).
Local Notation "'defsOf'" :=
  (Layer.TileDefs readBase64 readZlib readGzip sortTileSets).

(** X5. In the result of a successful [TileDefs] on a layer without cached
    definitions, over tile-sets whose first global ids are not negative, the
    definition at the place of a 32-bit global id [g] with a non-zero bare
    id is not nil and carries [g] and its three flip bits.  Its tile-set
    pointer points into the sorted slice the caller is left with, at a
    tile-set whose first global id is at most the bare id: so the local
    tile id is the plain difference, below 2^29, and never wraps.  Its tile
    pointer points at a tile of that tile-set with that local id, or is
    [nil] when the tile-set has no such tile. *)
Theorem resolved_cell (l : Layer) (tss : list TileSet) (k : nat)
        (tgr : TileGlobalRef) (td : TileDef) :
  tileDefs l = [] ->
  defsErr (defsOf l tss) = None ->
  (forall t, In t tss -> 0 <= FirstGlobalID t) ->
  nth_error (refs (refsOf l)) k = Some tgr ->
  nth_error (defs (defsOf l tss)) k = Some td ->
  is_uint32 (tgrGlobalID tgr) ->
  GlobalID.BareID (tgrGlobalID tgr) <> 0 ->
  Nil td = false
  /\ tdGlobalID td = tgrGlobalID tgr
  /\ HorizontallyFlipped td = Z.testbit (tgrGlobalID tgr) 31
  /\ VerticallyFlipped td = Z.testbit (tgrGlobalID tgr) 30
  /\ DiagonallyFlipped td = Z.testbit (tgrGlobalID tgr) 29
  /\ exists i ts,
       tdTileSet td = Some i
       /\ nth_error (defsTileSets (defsOf l tss)) i = Some ts
       /\ In ts tss
       /\ FirstGlobalID ts <= GlobalID.BareID (tgrGlobalID tgr)
       /\ ID td = GlobalID.BareID (tgrGlobalID tgr) - FirstGlobalID ts
       /\ 0 <= ID td < 2 ^ 29
       /\ match tdTile td with
          | Some j =>
              exists tile,
                nth_error (Tiles ts) j = Some tile /\ tileTileID tile = ID td
          | None => forall tile, In tile (Tiles ts) -> tileTileID tile <> ID td
          end.
Proof.
  intros Hcache Herr Hfirst Hk Htd Hg Hbare.
  destruct (TileDefs_success _ _ _ _ l tss Hcache Herr) as [Hrefs Hok].
  destruct (TileDefs_all _ _ _ _ l tss Hcache Hrefs Hok) as (out & Hr & Hout).
  rewrite Hr in Htd |- *. cbn [defs defsTileSets] in *.
  destruct (Forall2_nth_error _ _ _ Hout k tgr Hk) as (td' & Htd' & Hdef).
  rewrite Htd in Htd'. injection Htd' as <-.
  unfold cellDef, tileDefFor in Hdef.
  destruct (Z.eqb_spec (GlobalID.BareID (tgrGlobalID tgr)) 0);
    [contradiction|].
  pose proof (scan_sorted (GlobalID.BareID (tgrGlobalID tgr)) _
                (sort_sorts tss)) as Hscan.
  destruct (Layer.scan (sortTileSets tss) (GlobalID.BareID (tgrGlobalID tgr)))
    as [[i ts]|]; [|discriminate].
  destruct Hscan as (Hi & Hle & _). injection Hdef as <-.
  cbn [Nil tdGlobalID HorizontallyFlipped VerticallyFlipped DiagonallyFlipped
       tdTileSet tdTile ID].
  assert (Hin : In ts tss).
  { apply (Permutation_in _ (Permutation_sym (sort_permutes tss))).
    apply (nth_error_In _ _ Hi). }
  pose proof (BareID_bounds _ Hg) as Hb. pose proof (Hfirst ts Hin) as H0.
  assert (Hid : GlobalID.TileID (tgrGlobalID tgr) ts
                = GlobalID.BareID (tgrGlobalID tgr) - FirstGlobalID ts).
  { unfold GlobalID.TileID, wrap32. apply Z.mod_small. lia. }
  split; [reflexivity|]. split; [reflexivity|].
  split; [apply (land_pow2_testbit _ 31); lia|].
  split; [apply (land_pow2_testbit _ 30); lia|].
  split; [apply (land_pow2_testbit _ 29); lia|].
  exists i, ts. split; [reflexivity|]. split; [exact Hi|].
  split; [exact Hin|]. split; [exact Hle|]. split; [exact Hid|].
  split; [rewrite Hid; lia|].
  unfold TileSet.TileWithID. rewrite tileWithIDFrom_firstIndex.
  destruct (firstIndexFrom _ (Tiles ts) 0) as [j|] eqn:E.
  - apply firstIndexFrom_found in E as (m & tile & -> & Hnth & Hp & _).
    exists tile. cbn [Nat.add]. split; [exact Hnth | cbn in Hp; lia].
  - intros tile Htile. rewrite firstIndexFrom_none in E.
    specialize (E tile Htile). cbn in E. lia.
Qed.

(** X6. What a call of [TileDefs] does to the caller's tile-sets.  It never
    adds, drops or changes one: the slice after the call is a permutation
    of the slice before.  It is left in ascending order of first global id
    whenever the layer had no cached definitions and its references
    decoded, also when the call then fails for a cell; it is left exactly
    as it was when the definitions came from the cache or the references
    did not decode. *)
Theorem TileDefs_tile_sets (l : Layer) (tss : list TileSet) :
  Permutation tss (defsTileSets (defsOf l tss))
  /\ (tileDefs l = [] -> refsErr (refsOf l) = None ->
      defsTileSets (defsOf l tss) = sortTileSets tss
      /\ Sorted byFirstGlobalID.ascending (defsTileSets (defsOf l tss)))
  /\ (tileDefs l <> [] \/ refsErr (refsOf l) <> None ->
      defsTileSets (defsOf l tss) = tss).
Proof.
  assert (Hcases : defsTileSets (defsOf l tss) = tss
                   /\ (tileDefs l <> [] \/ refsErr (refsOf l) <> None)
                   \/ defsTileSets (defsOf l tss) = sortTileSets tss
                      /\ tileDefs l = [] /\ refsErr (refsOf l) = None).
  { unfold Layer.TileDefs. destruct (tileDefs l) as [|td tds] eqn:Hc.
    - cbn [nonempty]. destruct (refsErr (refsOf l)) as [e|] eqn:He.
      + left. split; [reflexivity | right; discriminate].
      + right. destruct (Layer.resolve _ _ _ _) as [[out [e|]] log]; auto.
    - left. split; [reflexivity | left; discriminate]. }
  destruct Hcases as [[Heq Hwhy] | (Heq & Hc & He)]; rewrite Heq.
  - split; [reflexivity|]. split; [|reflexivity].
    intros Hc He. destruct Hwhy as [H|H]; contradiction.
  - split; [apply sort_permutes|]. split; [auto|].
    intros [H|H]; contradiction.
Qed.

End Resolved.

(** ** The payload decoders, the other way round *)

Lemma byteVal_inj (a b : byte) : byteVal a = byteVal b -> a = b.
Proof.
  unfold byteVal. intros H. apply N2Z.inj in H.
  pose proof (Byte.of_to_N a) as Ha. rewrite H, Byte.of_to_N in Ha.
  injection Ha as ->. reflexivity.
Qed.

Lemma byteVal_byteOf (z : Z) : byteVal (Instances.byteOf z) = z mod 256.
Proof.
  unfold byteVal, Instances.byteOf.
  pose proof (Z.mod_pos_bound z 256 ltac:(lia)) as Hb.
  pose proof (Byte.to_of_N_option_map (Z.to_N (z mod 256))) as H.
  replace (Z.to_N (z mod 256) <=? 255)%N with true in H
    by (symmetry; apply N.leb_le; lia).
  destruct (Byte.of_N (Z.to_N (z mod 256))) as [b|]; [|discriminate].
  cbn in H. injection H as ->. lia.
Qed.

Lemma Uint32_bounds (b0 b1 b2 b3 : byte) : is_uint32 (Uint32 b0 b1 b2 b3).
Proof.
  rewrite Uint32_little_endian. unfold is_uint32.
  pose proof (byteVal_bounds b0). pose proof (byteVal_bounds b1).
  pose proof (byteVal_bounds b2). pose proof (byteVal_bounds b3).
  change (2 ^ 8) with 256 in *. change (2 ^ 16) with 65536.
  change (2 ^ 24) with 16777216. change (2 ^ 32) with 4294967296. lia.
Qed.

Lemma Uint32_inj (a0 a1 a2 a3 b0 b1 b2 b3 : byte) :
  Uint32 a0 a1 a2 a3 = Uint32 b0 b1 b2 b3 ->
  a0 = b0 /\ a1 = b1 /\ a2 = b2 /\ a3 = b3.
Proof.
  rewrite !Uint32_little_endian. intros H.
  pose proof (byteVal_bounds a0). pose proof (byteVal_bounds a1).
  pose proof (byteVal_bounds a2). pose proof (byteVal_bounds a3).
  pose proof (byteVal_bounds b0). pose proof (byteVal_bounds b1).
  pose proof (byteVal_bounds b2). pose proof (byteVal_bounds b3).
  change (2 ^ 8) with 256 in *. change (2 ^ 16) with 65536 in *.
  change (2 ^ 24) with 16777216 in *.
  repeat split; apply byteVal_inj; lia.
Qed.

Lemma decodeGroups_inj (n : nat) :
  forall a b,
  List.length a = (4 * n)%nat -> List.length b = (4 * n)%nat ->
  decodeGroups a = decodeGroups b -> a = b.
Proof.
  induction n as [|n IH]; intros a b Ha Hb H.
  - destruct a, b; try discriminate. reflexivity.
  - destruct a as [|a0 [|a1 [|a2 [|a3 a]]]]; simpl in Ha; try lia.
    destruct b as [|b0 [|b1 [|b2 [|b3 b]]]]; simpl in Hb; try lia.
    cbn [decodeGroups] in H. injection H as Hv Hrest.
    apply Uint32_inj in Hv as (-> & -> & -> & ->).
    rewrite (IH a b) by (lia || assumption). reflexivity.
Qed.

Lemma decodeGroups_bounds (b : list byte) : Forall is_uint32 (decodeGroups b).
Proof.
  assert (H : forall n b, (List.length b <= n)%nat ->
                          Forall is_uint32 (decodeGroups b)).
  { clear b. induction n as [|n IH]; intros b Hb.
    - destruct b; [constructor | simpl in Hb; lia].
    - destruct b as [|b0 [|b1 [|b2 [|b3 rest]]]]; try constructor.
      + apply Uint32_bounds.
      + apply IH. simpl in Hb. lia. }
  apply (H (List.length b)). lia.
Qed.

Lemma decodeB64LayerData_success (b : list byte) (uis : list Z) :
  decodeB64LayerData b = (uis, None) ->
  uis = decodeGroups b /\ List.length b = (4 * List.length uis)%nat.
Proof.
  unfold decodeB64LayerData.
  destruct (Z.eqb_spec (Z.of_nat (List.length b) mod 4) 0) as [Hm|];
    [|discriminate].
  cbn [negb]. intros H. injection H as <-. split; [reflexivity|].
  assert (Hn : List.length b
               = (4 * Z.to_nat (Z.of_nat (List.length b) / 4))%nat).
  { pose proof (Z.div_mod (Z.of_nat (List.length b)) 4). lia. }
  rewrite (decodeGroups_length _ b Hn). exact Hn.
Qed.

Lemma Uint32_bytesOf (v : Z) :
  is_uint32 v ->
  Uint32 (Instances.byteOf v) (Instances.byteOf (v / 2 ^ 8))
         (Instances.byteOf (v / 2 ^ 16)) (Instances.byteOf (v / 2 ^ 24)) = v.
Proof.
  unfold is_uint32. intros Hv.
  rewrite Uint32_little_endian, !byteVal_byteOf.
  change (2 ^ 8) with 256. change (2 ^ 16) with 65536.
  change (2 ^ 24) with 16777216. change (2 ^ 32) with 4294967296 in Hv.
  Z.div_mod_to_equations. lia.
Qed.

Lemma decodeGroups_bytesOf (uis : list Z) :
  Forall is_uint32 uis -> decodeGroups (bytesOf uis) = uis.
Proof.
  induction 1 as [|v uis Hv _ IH]; [reflexivity|].
  cbn [bytesOf decodeGroups]. rewrite (Uint32_bytesOf v Hv), IH. reflexivity.
Qed.

Lemma bytesOf_length (uis : list Z) :
  List.length (bytesOf uis) = (4 * List.length uis)%nat.
Proof.
  induction uis as [|v uis IH]; [reflexivity|]. cbn [bytesOf List.length].
  rewrite IH. lia.
Qed.

(** X7. [decodeB64LayerData] is one-to-one between the payloads it accepts
    and the sequences of 32-bit values.  What it returns are 32-bit values,
    one for every four bytes; two payloads that decode to the same sequence
    are the same payload; and every sequence of 32-bit values is what the
    little-endian bytes of its values decode to. *)
Theorem decodeB64LayerData_one_to_one :
  (forall b uis,
     decodeB64LayerData b = (uis, None) ->
     Forall is_uint32 uis /\ List.length b = (4 * List.length uis)%nat)
  /\ (forall a b uis,
        decodeB64LayerData a = (uis, None) ->
        decodeB64LayerData b = (uis, None) -> a = b)
  /\ (forall uis,
        Forall is_uint32 uis -> decodeB64LayerData (bytesOf uis) = (uis, None)).
Proof.
  split; [|split].
  - intros b uis H. apply decodeB64LayerData_success in H as [-> Hlen].
    split; [apply decodeGroups_bounds | exact Hlen].
  - intros a b uis Ha Hb.
    apply decodeB64LayerData_success in Ha as [Ha Hla].
    apply decodeB64LayerData_success in Hb as [Hb Hlb].
    apply (decodeGroups_inj (List.length uis)); congruence.
  - intros uis H. unfold decodeB64LayerData.
    rewrite bytesOf_length, (decodeGroups_bytesOf uis H).
    replace (Z.of_nat (4 * List.length uis) mod 4) with 0; [reflexivity|].
    rewrite Nat2Z.inj_mul, Z.mul_comm, Z.mod_mul by lia. reflexivity.
Qed.

(** X7 at the values 1 and 0x80000100: their bytes are
    [01 00 00 00 00 01 00 80] and decode back. *)
Lemma decodeB64LayerData_one_to_one_witness :
  bytesOf [1; 0x80000100] = [x01; x00; x00; x00; x00; x01; x00; x80]
  /\ decodeB64LayerData (bytesOf [1; 0x80000100]) = ([1; 0x80000100], None).
Proof.
  split; [reflexivity|].
  apply decodeB64LayerData_one_to_one.
  repeat constructor; unfold is_uint32; lia.
Defined.

(** ** The csv decoder, the other way round *)

Lemma isUint32Literal_dec (s : string) :
  isUint32Literal (TrimSpace s) = true
  \/ ~ isUint32Literal (TrimSpace s) = true.
Proof. destruct (isUint32Literal (TrimSpace s)); [left|right]; congruence. Qed.

Lemma decodeFields_success (strs : list string) (uis : list Z) :
  decodeFields strs [] = (uis, None) ->
  Forall (fun s => isUint32Literal (TrimSpace s) = true) strs.
Proof.
  intros H.
  destruct (first_bad_split _ isUint32Literal_dec strs)
    as [Hall | (pre & s & post & -> & Hpre & Hbad)]; [exact Hall|].
  apply not_true_is_false in Hbad.
  destruct (decodeFields_first_bad pre s post [] Hpre Hbad) as [cause Hc].
  rewrite Hc in H. discriminate.
Qed.

(** X8. When [decodeCSVLayerData] succeeds, every field of the text,
    trimmed, is a decimal literal of 32 bits and the result is the values of
    the fields: as many 32-bit values as the text has fields, so at least
    one.  An empty payload does not decode to no cells: it fails, and so
    does any payload with an empty or blank field, such as a trailing
    comma. *)
Theorem decodeCSVLayerData_success (b : list byte) :
  let fields := map TrimSpace (Split (string_of_list_byte b) ",") in
  (forall uis,
     decodeCSVLayerData b = (uis, None) ->
     Forall (fun f => isUint32Literal f = true) fields
     /\ uis = map decimalValue fields
     /\ Forall is_uint32 uis
     /\ uis <> [])
  /\ (In EmptyString fields -> snd (decodeCSVLayerData b) <> None).
Proof.
  intros fields. subst fields.
  assert (Hsucc : forall uis,
            decodeCSVLayerData b = (uis, None) ->
            Forall (fun f => isUint32Literal f = true)
                   (map TrimSpace (Split (string_of_list_byte b) ","))
            /\ uis = map decimalValue
                         (map TrimSpace (Split (string_of_list_byte b) ","))).
  { intros uis H. unfold decodeCSVLayerData in H.
    pose proof (decodeFields_success _ _ H) as Hall.
    rewrite (decodeFields_all _ [] Hall) in H. injection H as <-.
    rewrite Forall_map, map_map. auto. }
  split.
  - intros uis H. destruct (Hsucc uis H) as [Hall ->].
    split; [exact Hall|]. split; [reflexivity|]. split.
    + rewrite Forall_map. eapply Forall_impl; [|exact Hall].
      intros f Hf. pose proof (decimalValue_bounds f Hf). exact H0.
    + destruct (Split_nonempty (string_of_list_byte b) ",") as (f & fs & ->).
      discriminate.
  - intros Hin Hnone.
    destruct (decodeCSVLayerData b) as [uis [e|]] eqn:E; [discriminate|].
    destruct (Hsucc uis eq_refl) as [Hall _].
    rewrite Forall_forall in Hall. specialize (Hall _ Hin). discriminate.
Qed.

(** X8 at the empty payload and at ["1,2,"], which both fail, and at
    ["7"], which gives one value. *)
Lemma decodeCSVLayerData_success_witness :
  snd (decodeCSVLayerData []) <> None
  /\ snd (decodeCSVLayerData (list_byte_of_string "1,2,")) <> None
  /\ decodeCSVLayerData (list_byte_of_string "7") = ([7], None).
Proof.
  split; [|split].
  - apply (decodeCSVLayerData_success []). left. reflexivity.
  - apply (decodeCSVLayerData_success (list_byte_of_string "1,2,")).
    right. right. left. reflexivity.
  - destruct (decodeCSVLayerData_success (list_byte_of_string "7"))
      as [H _].
    destruct (decodeCSVLayerData (list_byte_of_string "7")) as [uis [e|]] eqn:E;
      [discriminate E|].
    destruct (H uis eq_refl) as (_ & -> & _). reflexivity.
Defined.

(** ** The tags of a layer *)

Section Tags.

Variables readBase64 readZlib readGzip : list byte -> list byte * option error.

Local Notation "'refsOf'" :=
  (Layer.TileGlobalRefs readBase64 readZlib readGzip).

Lemma eqb_false (a b : string) : a <> b -> String.eqb a b = false.
Proof. intros H. apply String.eqb_neq, H. Qed.

(** X9. On a layer without structured references and without cached ones
    the tags decide before the payload is looked at.  An encoding other than
    ["base64"] and ["csv"], the empty one too, fails with
    [ErrUnsupportedEncoding]; the encoding ["base64"] with a compression
    other than ["zlib"], ["gzip"] and the empty one fails with
    [ErrUnsupportedCompression].  Both hold whatever the payload and the
    readers are, no decoder runs, and the layer is left as it was. *)
Theorem unsupported_tags (l : Layer) :
  dataTileGlobalRefs (RawData l) = [] ->
  tileGlobalRefs l = [] ->
  (Encoding (RawData l) <> "base64" -> Encoding (RawData l) <> "csv" ->
   refsOf l = mkRefsResult [] (Some ErrUnsupportedEncoding) l [CallBytes])
  /\ (Encoding (RawData l) = "base64" ->
      Compression (RawData l) <> "zlib" ->
      Compression (RawData l) <> "gzip" ->
      Compression (RawData l) <> "" ->
      refsOf l = mkRefsResult [] (Some ErrUnsupportedCompression) l [CallBytes]).
Proof.
  intros Hdata Hcache. unfold Layer.TileGlobalRefs, Data.Bytes,
    Data.decodeB64Data. rewrite Hdata, Hcache. cbn [nonempty]. split.
  - intros Hb Hc. rewrite (eqb_false _ _ Hb), (eqb_false _ _ Hc).
    destruct (String.eqb (Encoding (RawData l)) ""); reflexivity.
  - intros Hb Hz Hg He.
    rewrite Hb, (eqb_false _ _ Hz), (eqb_false _ _ Hg), (eqb_false _ _ He).
    reflexivity.
Qed.

(** X10. A second call of [TileGlobalRefs] answers as the first did: the
    same references, the same error or none, and the layer as the first call
    left it.  This holds of every layer and every outcome, cached or not. *)
Theorem TileGlobalRefs_twice (l : Layer) :
  refs (refsOf (refsLayer (refsOf l))) = refs (refsOf l)
  /\ refsErr (refsOf (refsLayer (refsOf l))) = refsErr (refsOf l)
  /\ refsLayer (refsOf (refsLayer (refsOf l))) = refsLayer (refsOf l).
Proof.
  destruct (refsErr (refsOf l)) as [e|] eqn:Herr.
  - destruct (TileGlobalRefs_failed _ _ _ l e Herr) as [Hl _].
    rewrite Hl, Herr. auto.
  - destruct (refs (refsOf l)) as [|tgr tgrs] eqn:Hrefs.
    + assert (Hsame : refsLayer (refsOf l) = l).
      { revert Herr Hrefs. unfold Layer.TileGlobalRefs.
        destruct (nonempty (dataTileGlobalRefs (RawData l))); [reflexivity|].
        destruct (tileGlobalRefs l) as [|c cs] eqn:Hc; [|reflexivity].
        cbn [nonempty].
        destruct (Data.Bytes _ _ _ _) as [bytes [e|]]; [reflexivity|].
        destruct (String.eqb (Encoding (RawData l)) "base64").
        - destruct (decodeB64LayerData bytes) as [uis [e|]]; [reflexivity|].
          cbn [refs refsLayer refsErr]. intros _ Hu.
          rewrite Hu, <- Hc. destruct l; reflexivity.
        - destruct (String.eqb (Encoding (RawData l)) "csv"); [|reflexivity].
          destruct (decodeCSVLayerData bytes) as [uis [e|]]; [reflexivity|].
          cbn [refs refsLayer refsErr]. intros _ Hu.
          rewrite Hu, <- Hc. destruct l; reflexivity. }
      rewrite Hsame, Herr, Hrefs. auto.
    + assert (Hne : refs (refsOf l) <> []) by (rewrite Hrefs; discriminate).
      rewrite (TileGlobalRefs_again _ _ _ l Herr Hne readBase64 readZlib
                 readGzip).
      cbn [refs refsErr refsLayer]. rewrite Hrefs. auto.
Qed.

(** X11. A csv layer does not use the readers or the compression tag: on a
    layer without structured references and without cached ones whose
    encoding is ["csv"], the result is that of [decodeCSVLayerData] on the
    raw bytes as they are, and the same with any other readers. *)
Theorem csv_ignores_readers (l : Layer) :
  dataTileGlobalRefs (RawData l) = [] ->
  tileGlobalRefs l = [] ->
  Encoding (RawData l) = "csv" ->
  refs (refsOf l)
  = map mkTileGlobalRef (fst (decodeCSVLayerData (RawBytes (RawData l))))
  /\ refsErr (refsOf l) = snd (decodeCSVLayerData (RawBytes (RawData l)))
  /\ forall rb rz rg, Layer.TileGlobalRefs rb rz rg l = refsOf l.
Proof.
  intros Hdata Hcache Henc.
  assert (Hrun : forall rb rz rg,
            Layer.TileGlobalRefs rb rz rg l
            = match decodeCSVLayerData (RawBytes (RawData l)) with
              | (_, Some err) =>
                  mkRefsResult [] (Some err) l [CallBytes; CallDecodeCSV]
              | (uis, None) =>
                  mkRefsResult (map mkTileGlobalRef uis) None
                    (mkLayer (RawData l) (map mkTileGlobalRef uis)
                             (tileDefs l))
                    [CallBytes; CallDecodeCSV]
              end).
  { intros rb rz rg. unfold Layer.TileGlobalRefs, Data.Bytes.
    rewrite Hdata, Hcache, Henc. reflexivity. }
  split; [|split].
  - rewrite Hrun.
    destruct (decodeCSVLayerData _) as [uis [e|]] eqn:E; cbn [refs fst];
      [|reflexivity].
    revert E. unfold decodeCSVLayerData.
    generalize (Split (string_of_list_byte (RawBytes (RawData l))) ",").
    intros strs. generalize (@nil Z).
    induction strs as [|s strs IH]; intros acc; cbn [decodeFields];
      [discriminate|].
    destruct (ParseUint (TrimSpace s) 32) as [ui [err|]].
    + intros H. injection H as <- _. reflexivity.
    + apply IH.
  - rewrite Hrun. destruct (decodeCSVLayerData _) as [uis [e|]]; reflexivity.
  - intros rb rz rg. rewrite !Hrun. reflexivity.
Qed.

End Tags.

(** ** Literals of 64 bits *)

Lemma parseUintLoop_accepts64 (s0 s : string) :
  forall n, 0 <= n -> allDigits s = true -> decimalFrom n s < 2 ^ 64 ->
  parseUintLoop s0 (2 ^ 64 - 1) s n = (decimalFrom n s, None).
Proof.
  induction s as [|c s IH]; intros n Hn Hs Hv;
    cbn [allDigits decimalFrom parseUintLoop] in *; [reflexivity|].
  apply andb_prop in Hs as [Hc Hs].
  pose proof (isDigit_bounds c Hc) as Hd.
  unfold isDigit in Hc. rewrite Hc.
  assert (H0 : 0 <= 10 * n + (code c - code "0")) by lia.
  pose proof (decimalFrom_ge s _ H0 Hs).
  change ((2 ^ 64 - 1) / 10 + 1) with 1844674407370955162.
  change (2 ^ 64) with 18446744073709551616 in *.
  replace (n * 10) with (10 * n) by lia.
  destruct (Z.geb_spec n 1844674407370955162); [lia|].
  destruct (Z.geb_spec (10 * n + (code c - code "0")) 18446744073709551616);
    [lia|].
  destruct (Z.gtb_spec (10 * n + (code c - code "0"))
                       (18446744073709551616 - 1)); [lia|].
  apply IH; assumption.
Qed.

Lemma parseUintLoop_rejects64 (s0 s : string) :
  forall n, 0 <= n < 2 ^ 64 ->
  allDigits s && (decimalFrom n s <? 2 ^ 64) = false ->
  parseUintLoop s0 (2 ^ 64 - 1) s n = (0, Some (syntaxError "ParseUint" s0))
  \/ parseUintLoop s0 (2 ^ 64 - 1) s n
     = (2 ^ 64 - 1, Some (rangeError "ParseUint" s0)).
Proof.
  induction s as [|c s IH]; intros n Hn Hs;
    cbn [allDigits decimalFrom parseUintLoop] in *.
  - destruct (Z.ltb_spec n (2 ^ 64)); [discriminate | lia].
  - fold (isDigit c). destruct (isDigit c) eqn:Hc; [|left; reflexivity].
    pose proof (isDigit_bounds c Hc) as Hd.
    change ((2 ^ 64 - 1) / 10 + 1) with 1844674407370955162.
    change (2 ^ 64) with 18446744073709551616 in *.
    replace (n * 10) with (10 * n) by lia.
    destruct (Z.geb_spec n 1844674407370955162); [right; reflexivity|].
    destruct (Z.geb_spec (10 * n + (code c - code "0"))
                         18446744073709551616); [right; reflexivity|].
    destruct (Z.gtb_spec (10 * n + (code c - code "0"))
                         (18446744073709551616 - 1)); [right; reflexivity|].
    cbn [orb]. apply IH; [lia | exact Hs].
Qed.

Lemma ParseInt64_accepts (s : string) :
  isInt64Literal s = true -> ParseInt s 64 = (int32Value s, None).
Proof.
  unfold isInt64Literal, int32Value. intros H.
  apply andb_prop in H as [H Hr]. apply andb_prop in H as [Hne Hs].
  pose proof (decimalFrom_ge (unsignedPart s) 0 ltac:(lia) Hs) as Hge.
  fold (decimalValue (unsignedPart s)) in Hge.
  change (2 ^ 63) with 9223372036854775808 in Hr.
  assert (Hu : ParseUint (unsignedPart s) 64
               = (decimalValue (unsignedPart s), None)).
  { destruct (unsignedPart s) as [|c u] eqn:Eu; [discriminate|].
    unfold ParseUint. rewrite <- Eu in *.
    apply parseUintLoop_accepts64; [lia | exact Hs |].
    fold (decimalValue (unsignedPart s)).
    change (2 ^ 64) with 18446744073709551616. destruct (isNegative s); lia. }
  destruct s as [|c s]; [discriminate|].
  cbn [ParseInt unsignedPart isNegative] in *. rewrite Hu.
  change (2 ^ (64 - 1)) with 9223372036854775808.
  destruct (Ascii.eqb c "-"); cbn [negb andb].
  - destruct (Z.gtb_spec
                (decimalValue (if Ascii.eqb c "+" || true then s
                               else String c s)) 9223372036854775808);
      [lia | reflexivity].
  - destruct (Z.geb_spec
                (decimalValue (if Ascii.eqb c "+" || false then s
                               else String c s)) 9223372036854775808);
      [lia | reflexivity].
Qed.

Lemma ParseInt64_rejects (s : string) :
  isInt64Literal s = false -> snd (ParseInt s 64) <> None.
Proof.
  unfold isInt64Literal. intros H.
  destruct s as [|c s]; [discriminate|].
  cbn [ParseInt unsignedPart isNegative] in *.
  set (digits := if Ascii.eqb c "+" || Ascii.eqb c "-" then s
                 else String c s) in *.
  change (2 ^ (64 - 1)) with 9223372036854775808.
  change (2 ^ 63) with 9223372036854775808 in H.
  destruct (negb (String.eqb digits "") && allDigits digits
            && (decimalValue digits <? 2 ^ 64)) eqn:Hu.
  - apply andb_prop in Hu as [Hu Hv]. rewrite Hu in H. cbn [andb] in H.
    apply andb_prop in Hu as [Hne Hs].
    assert (Hp : ParseUint digits 64 = (decimalValue digits, None)).
    { destruct digits as [|d ds] eqn:Ed; [discriminate|].
      unfold ParseUint. rewrite <- Ed in *.
      apply parseUintLoop_accepts64; [lia | exact Hs | apply Z.ltb_lt, Hv]. }
    rewrite Hp. destruct (Ascii.eqb c "-"); cbn [negb andb].
    + destruct (Z.gtb_spec (decimalValue digits) 9223372036854775808);
        [discriminate | lia].
    + destruct (Z.geb_spec (decimalValue digits) 9223372036854775808);
        [discriminate | lia].
  - assert (Hp : ParseUint digits 64
                 = (0, Some (syntaxError "ParseUint" digits))
                 \/ ParseUint digits 64
                    = (2 ^ 64 - 1, Some (rangeError "ParseUint" digits))).
    { destruct digits as [|d ds] eqn:Ed; [left; reflexivity|].
      unfold ParseUint. rewrite <- Ed in *.
      apply parseUintLoop_rejects64; [lia|].
      rewrite Ed in Hu. cbn [String.eqb negb andb] in Hu.
      rewrite <- Ed in Hu. exact Hu. }
    destruct Hp as [-> | ->]; [discriminate|].
    change (2 ^ 64 - 1) with 18446744073709551615.
    destruct (Ascii.eqb c "-"); cbn; discriminate.
Qed.

(** ** Typed properties *)

Lemma WithName_first (pre post : list Property) (p : Property)
      (name : string) :
  (forall q, In q pre -> propName q <> name) ->
  propName p = name ->
  Properties.WithName (pre ++ p :: post) name = Some p.
Proof.
  intros Hpre Hp. unfold Properties.WithName.
  rewrite firstCopy_skips.
  - cbn [firstCopy]. rewrite Hp, String.eqb_refl. reflexivity.
  - intros q Hq. apply String.eqb_neq, Hpre, Hq.
Qed.

Lemma WithName_none (pl : list Property) (name : string) :
  Properties.WithName pl name = None
  <-> forall q, In q pl -> propName q <> name.
Proof.
  unfold Properties.WithName. rewrite firstCopy_none. split.
  - intros H q Hq. apply String.eqb_neq, H, Hq.
  - intros H q Hq. apply String.eqb_neq, H, Hq.
Qed.

(** X12. [Properties.Int] is decided by the first property with the name,
    whatever follows it.  Without such a property the error is
    [ErrPropertyNotFound], and only then.  When the first one is not of type
    ["int"] the error is [ErrPropertyWrongType], even if a later property
    with the name is an integer.  When it is of type ["int"] the call
    succeeds exactly on a signed decimal literal of 64 bits (no spaces
    around it), with its value; on any other value the error is
    [ErrPropertyFailedConversion]. *)
Theorem Properties_Int (name : string) :
  (forall pl,
     snd (Properties.Int pl name) = Some ErrPropertyNotFound
     <-> forall q, In q pl -> propName q <> name)
  /\ (forall pre p post,
        (forall q, In q pre -> propName q <> name) ->
        propName p = name ->
        (propType p <> "int" ->
         Properties.Int (pre ++ p :: post) name
         = (0, Some ErrPropertyWrongType))
        /\ (propType p = "int" -> isInt64Literal (propValue p) = true ->
            Properties.Int (pre ++ p :: post) name
            = (int32Value (propValue p), None))
        /\ (propType p = "int" -> isInt64Literal (propValue p) = false ->
            snd (Properties.Int (pre ++ p :: post) name)
            = Some ErrPropertyFailedConversion)).
Proof.
  split.
  - intros pl. rewrite <- WithName_none. unfold Properties.Int.
    destruct (Properties.WithName pl name) as [p|];
      [|split; reflexivity].
    split; [|discriminate].
    destruct (negb (String.eqb (propType p) "int")); [discriminate|].
    destruct (ParseInt (propValue p) 64) as [v [e|]]; discriminate.
  - intros pre p post Hpre Hp. unfold Properties.Int.
    rewrite (WithName_first pre post p name Hpre Hp).
    split; [|split].
    + intros Ht. rewrite (eqb_false _ _ Ht). reflexivity.
    + intros Ht Hv. rewrite Ht, (ParseInt64_accepts _ Hv). reflexivity.
    + intros Ht Hv. rewrite Ht. cbn [String.eqb negb].
      pose proof (ParseInt64_rejects _ Hv) as Hr.
      destruct (ParseInt (propValue p) 64) as [v [e|]];
        [reflexivity | contradiction].
Qed.

(** X12 at the properties [health:int=100], [health:float=1.5] and
    [speed:float=2], [speed:int=3]: the first [health] is read, the first
    [speed] is of the wrong type, [mana] is missing, and [" 7"] does not
    convert. *)
Lemma Properties_Int_witness :
  Properties.Int [mkProperty "health" "int" "100";
                  mkProperty "health" "float" "1.5"] "health" = (100, None)
  /\ Properties.Int [mkProperty "speed" "float" "2";
                     mkProperty "speed" "int" "3"] "speed"
     = (0, Some ErrPropertyWrongType)
  /\ snd (Properties.Int [mkProperty "speed" "float" "2"] "mana")
     = Some ErrPropertyNotFound
  /\ snd (Properties.Int [mkProperty "n" "int" " 7"] "n")
     = Some ErrPropertyFailedConversion.
Proof.
  split; [|split; [|split]].
  - destruct (Properties_Int "health") as [_ H].
    apply (H [] (mkProperty "health" "int" "100")
             [mkProperty "health" "float" "1.5"]); try reflexivity.
    intros q [].
  - destruct (Properties_Int "speed") as [_ H].
    apply (H [] (mkProperty "speed" "float" "2")
             [mkProperty "speed" "int" "3"]); try reflexivity;
      [intros q [] | discriminate].
  - apply (Properties_Int "mana"). intros q [<-|[]]. discriminate.
  - destruct (Properties_Int "n") as [_ H].
    apply (H [] (mkProperty "n" "int" " 7") []); try reflexivity.
    intros q [].
Defined.

(** X13. [Properties.Bool] is decided by the first property with the name.
    Without one the error is [ErrPropertyNotFound], and only then; when the
    first one is not of type ["bool"] the error is [ErrPropertyWrongType].
    When it is, the call never fails: the result is [true] for the value
    ["true"] and [false] for every other value. *)
Theorem Properties_Bool (name : string) :
  (forall pl,
     snd (Properties.Bool pl name) = Some ErrPropertyNotFound
     <-> forall q, In q pl -> propName q <> name)
  /\ (forall pl,
        snd (Properties.Bool pl name) <> Some ErrPropertyFailedConversion)
  /\ (forall pre p post,
        (forall q, In q pre -> propName q <> name) ->
        propName p = name ->
        (propType p <> "bool" ->
         Properties.Bool (pre ++ p :: post) name
         = (false, Some ErrPropertyWrongType))
        /\ (propType p = "bool" -> propValue p = "true" ->
            Properties.Bool (pre ++ p :: post) name = (true, None))
        /\ (propType p = "bool" -> propValue p <> "true" ->
            Properties.Bool (pre ++ p :: post) name = (false, None))).
Proof.
  split; [|split].
  - intros pl. rewrite <- WithName_none. unfold Properties.Bool.
    destruct (Properties.WithName pl name) as [p|];
      [|split; reflexivity].
    split; [|discriminate].
    destruct (negb (String.eqb (propType p) "bool")); discriminate.
  - intros pl. unfold Properties.Bool.
    destruct (Properties.WithName pl name) as [p|]; [|discriminate].
    destruct (negb (String.eqb (propType p) "bool")); discriminate.
  - intros pre p post Hpre Hp. unfold Properties.Bool.
    rewrite (WithName_first pre post p name Hpre Hp).
    split; [|split].
    + intros Ht. rewrite (eqb_false _ _ Ht). reflexivity.
    + intros Ht Hv. rewrite Ht, Hv. reflexivity.
    + intros Ht Hv. rewrite Ht, (eqb_false _ _ Hv). reflexivity.
Qed.

(** X13 at the property [cool:bool=True], which reads as [false]. *)
Lemma Properties_Bool_witness :
  Properties.Bool [mkProperty "x" "int" "1"; mkProperty "cool" "bool" "True"]
                  "cool" = (false, None).
Proof.
  destruct (Properties_Bool "cool") as (_ & _ & H).
  apply (H [mkProperty "x" "int" "1"] (mkProperty "cool" "bool" "True") []);
    try reflexivity; [|discriminate].
  intros q [<-|[]]. discriminate.
Defined.

(** ** Points *)

Lemma pointsLoop_step_ok (rpt : string) (rest : list string)
      (pts : list Point) :
  isPointToken rpt = true ->
  Poly.pointsLoop (rpt :: rest) pts
  = Poly.pointsLoop rest (pts ++ [pointOf rpt]).
Proof.
  unfold isPointToken, pointOf. intros H. cbn [Poly.pointsLoop].
  destruct (Split rpt ",") as [|x [|y [|z xy]]]; try discriminate.
  apply andb_prop in H as [Hx Hy].
  cbn [List.length Nat.eqb negb nth].
  rewrite (ParseInt_accepts _ Hx), (ParseInt_accepts _ Hy). reflexivity.
Qed.

Lemma pointsLoop_step_bad (rpt : string) (rest : list string)
      (pts : list Point) :
  isPointToken rpt = false ->
  exists err,
    Poly.pointsLoop (rpt :: rest) pts = (pts, Some err)
    /\ (List.length (Split rpt ",") <> 2%nat ->
        err = Poly.badPoint (List.length (Split rpt ",")) rpt).
Proof.
  unfold isPointToken. intros H. cbn [Poly.pointsLoop].
  destruct (Nat.eqb_spec (List.length (Split rpt ",")) 2) as [Hl|Hl];
    cbn [negb]; [|eexists; split; [reflexivity | reflexivity]].
  destruct (Split rpt ",") as [|x [|y [|z xy]]]; try discriminate.
  cbn [nth].
  destruct (isInt32Literal x) eqn:Hx.
  - rewrite (ParseInt_accepts _ Hx). cbn [andb] in H.
    destruct (ParseInt_rejects _ H) as (v & cause & ->).
    eexists. split; [reflexivity | contradiction].
  - destruct (ParseInt_rejects _ Hx) as (v & cause & ->).
    eexists. split; [reflexivity | contradiction].
Qed.

Lemma pointsLoop_all (rpts : list string) :
  forall pts,
  Forall (fun t => isPointToken t = true) rpts ->
  Poly.pointsLoop rpts pts = ((pts ++ map pointOf rpts)%list, None).
Proof.
  induction rpts as [|t rpts IH]; intros pts H.
  - cbn. rewrite app_nil_r. reflexivity.
  - inversion H as [|? ? Ht Hrest]; subst.
    rewrite (pointsLoop_step_ok _ _ _ Ht), IH by exact Hrest.
    rewrite <- app_assoc. reflexivity.
Qed.

Lemma pointsLoop_first_bad (pre : list string) :
  forall t post pts,
  Forall (fun t => isPointToken t = true) pre ->
  isPointToken t = false ->
  exists err,
    Poly.pointsLoop (pre ++ t :: post) pts
    = ((pts ++ map pointOf pre)%list, Some err)
    /\ (List.length (Split t ",") <> 2%nat ->
        err = Poly.badPoint (List.length (Split t ",")) t).
Proof.
  induction pre as [|p pre IH]; intros t post pts Hpre Ht.
  - cbn [app map]. rewrite app_nil_r. apply pointsLoop_step_bad, Ht.
  - inversion Hpre as [|? ? Hp Hrest]; subst. cbn [app].
    rewrite (pointsLoop_step_ok _ _ _ Hp).
    destruct (IH t post (pts ++ [pointOf p])%list Hrest Ht)
      as (err & -> & Herr).
    exists err. rewrite <- app_assoc. auto.
Qed.

Lemma isPointToken_dec (t : string) :
  isPointToken t = true \/ ~ isPointToken t = true.
Proof. destruct (isPointToken t); [left|right]; congruence. Qed.

(** X14. [Points] cuts the text at every space and reads each token as two
    signed decimal literals of 32 bits with one comma between them, with no
    white space trimmed.  When every token is such a pair the call returns
    the points in order.  Otherwise it fails at the first token that is
    not, and returns next to the error the points of the tokens before it.
    A token that does not hold exactly one comma fails with the error that
    reports the number of its fields; so an empty token does, which is what
    an empty text, a leading, a trailing or a doubled space give.
    Conversely, a call that returns no error read every token as a pair. *)
Theorem Points_tokens (p : Poly) :
  let tokens := Split (RawPoints p) " " in
  (Forall (fun t => isPointToken t = true) tokens ->
   Poly.Points p = (map pointOf tokens, None))
  /\ (forall pre t post,
        tokens = (pre ++ t :: post)%list ->
        Forall (fun t => isPointToken t = true) pre ->
        isPointToken t = false ->
        exists err,
          Poly.Points p = (map pointOf pre, Some err)
          /\ (List.length (Split t ",") <> 2%nat ->
              err = Poly.badPoint (List.length (Split t ",")) t))
  /\ (forall pre post,
        tokens = (pre ++ EmptyString :: post)%list ->
        Forall (fun t => isPointToken t = true) pre ->
        Poly.Points p = (map pointOf pre, Some (Poly.badPoint 1 "")))
  /\ (snd (Poly.Points p) = None ->
      Forall (fun t => isPointToken t = true) tokens).
Proof.
  intros tokens. unfold Poly.Points. fold tokens.
  assert (Hbad : forall pre t post,
            tokens = (pre ++ t :: post)%list ->
            Forall (fun t => isPointToken t = true) pre ->
            isPointToken t = false ->
            exists err,
              Poly.pointsLoop tokens [] = (map pointOf pre, Some err)
              /\ (List.length (Split t ",") <> 2%nat ->
                  err = Poly.badPoint (List.length (Split t ",")) t)).
  { intros pre t post -> Hpre Ht.
    apply (pointsLoop_first_bad pre t post [] Hpre Ht). }
  split; [intros H; apply (pointsLoop_all tokens [] H)|].
  split; [exact Hbad|]. split.
  - intros pre post Heq Hpre.
    destruct (Hbad pre EmptyString post Heq Hpre eq_refl) as (err & -> & He).
    rewrite (He ltac:(cbn; lia)). reflexivity.
  - intros Hok.
    destruct (first_bad_split _ isPointToken_dec tokens)
      as [Hall | (pre & t & post & Heq & Hpre & Ht)]; [exact Hall|].
    apply not_true_is_false in Ht.
    destruct (Hbad pre t post Heq Hpre Ht) as (err & He & _).
    rewrite He in Hok. discriminate.
Qed.

(** X14 at ["0,0 10,-5"], which gives two points; at the empty text; and at
    ["1,2  3,4"], whose doubled space gives an empty token after the first
    point. *)
Lemma Points_tokens_witness :
  Poly.Points (mkPoly "0,0 10,-5") = ([mkPoint 0 0; mkPoint 10 (-5)], None)
  /\ Poly.Points (mkPoly "") = ([], Some (Poly.badPoint 1 ""))
  /\ Poly.Points (mkPoly "1,2  3,4")
     = ([mkPoint 1 2], Some (Poly.badPoint 1 "")).
Proof.
  split; [|split].
  - apply (Points_tokens (mkPoly "0,0 10,-5")).
    repeat (constructor; [reflexivity|]). constructor.
  - destruct (Points_tokens (mkPoly "")) as (_ & _ & H & _).
    apply (H [] []); [reflexivity | constructor].
  - destruct (Points_tokens (mkPoly "1,2  3,4")) as (_ & _ & H & _).
    apply (H ["1,2"] ["3,4"]); [reflexivity|].
    constructor; [reflexivity | constructor].
Defined.

(** ** Objects and properties by name *)

(** X15. [Objects.WithName] and [Properties.WithName] return a copy of the
    first element with that name: what they return is an element of the
    list, carries the name, and no element before it does.  They return
    [nil] exactly when no element carries the name. *)
Theorem WithName_first_match (name : string) :
  (forall ol,
     match Objects.WithName ol name with
     | Some o =>
         exists pre post,
           ol = (pre ++ o :: post)%list /\ objName o = name
           /\ forall other, In other pre -> objName other <> name
     | None => forall other, In other ol -> objName other <> name
     end)
  /\ (forall pl,
        match Properties.WithName pl name with
        | Some p =>
            exists pre post,
              pl = (pre ++ p :: post)%list /\ propName p = name
              /\ forall other, In other pre -> propName other <> name
        | None => forall other, In other pl -> propName other <> name
        end).
Proof.
  split.
  - intros ol. unfold Objects.WithName.
    destruct (firstCopy _ ol) as [o|] eqn:E.
    + apply firstCopy_found in E as (pre & post & -> & Ho & Hpre).
      exists pre, post. split; [reflexivity|].
      split; [apply String.eqb_eq, Ho|].
      intros other Hin. apply String.eqb_neq, Hpre, Hin.
    + rewrite firstCopy_none in E. intros other Hin.
      apply String.eqb_neq, E, Hin.
  - intros pl. unfold Properties.WithName.
    destruct (firstCopy _ pl) as [p|] eqn:E.
    + apply firstCopy_found in E as (pre & post & -> & Hp & Hpre).
      exists pre, post. split; [reflexivity|].
      split; [apply String.eqb_eq, Hp|].
      intros other Hin. apply String.eqb_neq, Hpre, Hin.
    + rewrite firstCopy_none in E. intros other Hin.
      apply String.eqb_neq, E, Hin.
Qed.

(** ** The terrain descriptor, again *)

Lemma parseCorners_bounds (strs : list string) :
  forall tid,
  Forall is_uint32 tid ->
  Forall is_uint32 (fst (Tile.parseCorners strs tid)).
Proof.
  induction strs as [|s strs IH]; intros tid H; cbn [Tile.parseCorners];
    [exact H|].
  destruct (ParseInt (TrimSpace (TrimSpace s)) 32) as [id [e|]];
    [exact H|].
  apply IH. apply Forall_app. split; [exact H|].
  constructor; [|constructor]. unfold wrap32, is_uint32.
  apply Z.mod_pos_bound. lia.
Qed.

Lemma nth_uint32 (tid : list Z) (k : nat) :
  Forall is_uint32 tid -> is_uint32 (nth k tid 0).
Proof.
  intros H. destruct (nth_in_or_default k tid 0) as [Hin | ->].
  - rewrite Forall_forall in H. apply H, Hin.
  - unfold is_uint32. lia.
Qed.

Ltac terrain_frame :=
  split; [reflexivity|]; split; [reflexivity|];
  split; [try reflexivity; try (let H := fresh in intros H; contradiction)|];
  split; [reflexivity|].

(** X16. [TerrainType] never changes the id or the descriptor of the tile,
    and a failed call changes nothing at all.  A second call answers as the
    first did: the same corners, the same error or none, and the tile as the
    first call left it.  The corners parsed from a descriptor are 32-bit
    values. *)
Theorem TerrainType_twice (t : Tile) :
  tileTileID (snd (Tile.TerrainType t)) = tileTileID t
  /\ RawTerrainType (snd (Tile.TerrainType t)) = RawTerrainType t
  /\ (snd (fst (Tile.TerrainType t)) <> None -> snd (Tile.TerrainType t) = t)
  /\ Tile.TerrainType (snd (Tile.TerrainType t)) 
     = (fst (Tile.TerrainType t), snd (Tile.TerrainType t))
  /\ (forall cs,
        terrainType t = None ->
        fst (fst (Tile.TerrainType t)) = Some cs ->
        is_uint32 (TopLeft cs) /\ is_uint32 (TopRight cs)
        /\ is_uint32 (BottomLeft cs) /\ is_uint32 (BottomRight cs)).
Proof.
  unfold Tile.TerrainType.
  destruct (String.eqb (RawTerrainType t) "") eqn:Hraw.
  - cbn [fst snd]. rewrite Hraw. terrain_frame.
    intros cs _ H. injection H as <-. cbn.
    unfold is_uint32. repeat split; lia.
  - destruct (terrainType t) as [cached|] eqn:Hc.
    + cbn [fst snd]. rewrite Hraw, Hc. terrain_frame.
      intros cs H. discriminate H.
    + destruct (negb (Nat.eqb (List.length (Split (RawTerrainType t) ","))
                              4)) eqn:Hl.
      * cbn [fst snd]. rewrite Hraw, Hc, Hl. terrain_frame.
        intros cs _ H. discriminate H.
      * destruct (Tile.parseCorners (Split (RawTerrainType t) ",") [])
          as [tid [e|]] eqn:Hp; cbn [fst snd] in *.
        { rewrite Hraw, Hc, Hl, Hp. terrain_frame.
          intros cs _ H. discriminate H. }
        { cbn [tileTileID RawTerrainType terrainType]. rewrite Hraw.
          terrain_frame.
          intros cs _ H. injection H as <-. cbn.
          assert (Hb : Forall is_uint32 tid).
          { change tid with (fst (tid, @None error)). rewrite <- Hp.
            apply parseCorners_bounds. constructor. }
          repeat split; apply nth_uint32, Hb. }
Qed.

(** X16 at the descriptor [" -1 ,+2,3,4"]: the second call returns the
    corners of the first, and the first corner is 2^32 - 1. *)
Lemma TerrainType_twice_witness :
  Tile.TerrainType (snd (Tile.TerrainType (mkTile 7 " -1 ,+2,3,4" None)))
  = (Some (mkTerrainType 4294967295 2 3 4), None,
     mkTile 7 " -1 ,+2,3,4" (Some (mkTerrainType 4294967295 2 3 4)))
  /\ is_uint32 4294967295.
Proof.
  destruct (TerrainType_twice (mkTile 7 " -1 ,+2,3,4" None))
    as (_ & _ & _ & Htwice & Hbounds).
  split; [rewrite Htwice; reflexivity|].
  destruct (Hbounds (mkTerrainType 4294967295 2 3 4) eq_refl eq_refl)
    as [H _].
  exact H.
Defined.

(** ** The further properties on concrete inputs *)

(** X1 at the tile-set B of the examples, whose tiles have the ids 3 and
    0: id 0 is found, at a tile that carries it; id 9 is on no tile. *)
Lemma TileWithID_first_witness :
  (exists i tile,
     TileSet.TileWithID Examples.B 0 = Some i
     /\ nth_error (Tiles Examples.B) i = Some tile /\ tileTileID tile = 0)
  /\ forall tile, In tile (Tiles Examples.B) -> tileTileID tile <> 9.
Proof.
  pose proof (TileWithID_first Examples.B 0) as H0.
  pose proof (TileWithID_first Examples.B 9) as H9.
  destruct (TileSet.TileWithID Examples.B 0) as [i|] eqn:E0;
    [|discriminate E0].
  destruct (TileSet.TileWithID Examples.B 9) as [j|] eqn:E9;
    [discriminate E9|].
  destruct H0 as (tile & Hn & Hid & _).
  split; [exists i, tile; auto | exact H9].
Defined.

(** X2 at a map with the tile-sets A, B, C and one object group: B is
    found, at a tile-set of that name; no group is named [players]. *)
Lemma Map_lookup_first_witness :
  (exists i t,
     Map.TileSetWithName
       (mkMap [Examples.A; Examples.B; Examples.C]
              [mkObjectGroup "enemies" []]) "B" = Some i
     /\ nth_error [Examples.A; Examples.B; Examples.C] i = Some t
     /\ Name t = "B")
  /\ forall g, In g [mkObjectGroup "enemies" []] -> groupName g <> "players".
Proof.
  destruct (Map_lookup_first
              (mkMap [Examples.A; Examples.B; Examples.C]
                     [mkObjectGroup "enemies" []]) "B") as [Ht _].
  destruct (Map_lookup_first
              (mkMap [Examples.A; Examples.B; Examples.C]
                     [mkObjectGroup "enemies" []]) "players") as [_ Hg].
  destruct (Map.TileSetWithName _ "B") as [i|] eqn:Et; [|discriminate Et].
  destruct (Map.ObjectGroupWithName _ "players") as [j|] eqn:Eg;
    [discriminate Eg|].
  destruct Ht as (t & Hn & Hname & _).
  split; [exists i, t; auto | exact Hg].
Defined.

(** X15 at two objects named [enemy1] after a door: what is returned
    carries the name and only the door comes before it. *)
Lemma WithName_first_match_witness :
  exists o pre post,
    Objects.WithName
      [mkObject "door" [] [] [] [];
       mkObject "enemy1" [mkProperty "health" "int" "100"] [] [] [];
       mkObject "enemy1" [] [] [] []] "enemy1" = Some o
    /\ [mkObject "door" [] [] [] [];
        mkObject "enemy1" [mkProperty "health" "int" "100"] [] [] [];
        mkObject "enemy1" [] [] [] []] = (pre ++ o :: post)%list
    /\ objName o = "enemy1".
Proof.
  destruct (WithName_first_match "enemy1") as [H _].
  specialize (H [mkObject "door" [] [] [] [];
                 mkObject "enemy1" [mkProperty "health" "int" "100"] [] [] [];
                 mkObject "enemy1" [] [] [] []]).
  destruct (Objects.WithName _ "enemy1") as [o|] eqn:E; [|discriminate E].
  destruct H as (pre & post & Heq & Hn & _).
  exists o, pre, post. auto.
Defined.

(** X5 at the third of the five cells, global id [0x80000064] over the
    tile-sets C, A, B: bare id 100, owned by B at index 1 of the sorted
    slice, local id 0, the tile with id 0 at index 1 of B's tiles. *)
Lemma resolved_cell_witness :
  exists td,
    nth_error (defs (Instances.TileDefs Examples2.fiveCells
                       [Examples.C; Examples.A; Examples.B])) 2 = Some td
    /\ Nil td = false
    /\ HorizontallyFlipped td = Z.testbit 0x80000064 31
    /\ exists i ts,
         tdTileSet td = Some i
         /\ In ts [Examples.C; Examples.A; Examples.B]
         /\ ID td = GlobalID.BareID 0x80000064 - FirstGlobalID ts.
Proof.
  eexists. split; [reflexivity|].
  destruct (resolved_cell
              Instances.readBase64 Instances.readNone Instances.readNone
              Instances.sortTileSets sortTileSets_permutes sortTileSets_sorts
              Examples2.fiveCells [Examples.C; Examples.A; Examples.B]
              2%nat (mkTileGlobalRef 0x80000064)
              (mkTileDef false 0 0x80000064 (Some 1%nat) (Some 1%nat)
                         true false false))
    as (Hnil & _ & Hh & _ & _ & i & ts & Hi & _ & Hin & _ & Hid & _);
    try reflexivity.
  - intros t [<-|[<-|[<-|[]]]]; cbn; lia.
  - unfold is_uint32. cbn. lia.
  - discriminate.
  - split; [exact Hnil|]. split; [exact Hh|]. exists i, ts. auto.
Defined.

(** X6 at the layer with a cell no tile-set owns, over C, B: the call fails
    and leaves the tile-sets as B, C. *)
Lemma TileDefs_tile_sets_witness :
  defsTileSets (Instances.TileDefs Examples.strayCell [Examples.C; Examples.B])
  = Instances.sortTileSets [Examples.C; Examples.B]
  /\ Sorted byFirstGlobalID.ascending
       (defsTileSets (Instances.TileDefs Examples.strayCell
                        [Examples.C; Examples.B])).
Proof.
  destruct (TileDefs_tile_sets
              Instances.readBase64 Instances.readNone Instances.readNone
              Instances.sortTileSets sortTileSets_permutes sortTileSets_sorts
              Examples.strayCell [Examples.C; Examples.B]) as (_ & H & _).
  apply H; reflexivity.
Defined.

(** X9 at a layer tagged ["xml"] and at a base64 layer tagged ["lz4"]. *)
Lemma unsupported_tags_witness :
  Instances.TileGlobalRefs Examples2.unknownEncoding
  = mkRefsResult [] (Some ErrUnsupportedEncoding) Examples2.unknownEncoding
                 [CallBytes]
  /\ Instances.TileGlobalRefs Examples2.unknownCompression
     = mkRefsResult [] (Some ErrUnsupportedCompression)
                    Examples2.unknownCompression [CallBytes].
Proof.
  split.
  - apply (unsupported_tags Instances.readBase64 Instances.readNone
             Instances.readNone Examples2.unknownEncoding eq_refl eq_refl);
      discriminate.
  - apply (unsupported_tags Instances.readBase64 Instances.readNone
             Instances.readNone Examples2.unknownCompression eq_refl eq_refl);
      (reflexivity || discriminate).
Defined.

(** X11 at a csv payload of two rows under the tag ["zlib"]: the four cells
    of the rows. *)
Lemma csv_ignores_readers_witness :
  refs (Instances.TileGlobalRefs Examples2.rows)
  = map mkTileGlobalRef [1; 2; 3; 4]
  /\ refsErr (Instances.TileGlobalRefs Examples2.rows) = None.
Proof.
  destruct (csv_ignores_readers Instances.readBase64 Instances.readNone
              Instances.readNone Examples2.rows eq_refl eq_refl eq_refl)
    as (Hrefs & Herr & _).
  unfold Instances.TileGlobalRefs. rewrite Hrefs, Herr.
  split; reflexivity.
Defined.
